(** * HouseSeats bot: the diff-and-notify pipeline of [scraper.py]

    A shallow embedding of the store functions, of the body of
    [scrape_and_process], of [notify_users_about_new_shows], of
    [BlacklistButton.callback] and of the [blacklist_remove] command,
    followed by the properties of the specification that concern them.

    Conventions of the embedding.
    - A Python [dict] keyed by show id is a [gmap string _]; iterating over it
      ([.items()], [.keys()]) is [map_to_list].  A Python [set] is a [gset].
    - A PostgreSQL table is the list of its rows.  The primary keys declared
      by the [CREATE TABLE] statements are not built into the type: a plain
      [INSERT] of a key that is present fails, an [INSERT ... ON CONFLICT DO
      NOTHING] of such a key leaves the table as it is.
    - Every store function opens its own connection, works on it and calls
      [conn.commit()] before it returns.  A [world] holds the committed
      database, which is what any other connection reads, together with the
      list of all states that were ever committed.
    - Sending is modelled by the request handed to the messaging library:
      [send_discord_message] and [send_user_dm] catch and log every failure
      of the library, so the requests are what the program decides. *)

From stdpp Require Import gmap strings list fin_maps.
From Stdlib Require Import Ascii.

#[local] Set Warnings "-clear-no-such-hyp".

(** ** Data model *)

(** The value stored per show id in [scraped_shows_dict]:
    [{'name': ..., 'url': ..., 'image_url': ...}], where [image_url] may be
    [None]. *)
Record show_info := ShowInfo {
  name : string;
  url : string;
  image_url : option string
}.

Global Instance show_info_eq_dec : EqDecision show_info.
Proof. solve_decision. Defined.

(** A row of [all_shows]: the columns of [shows] and [first_seen_date]. *)
Record all_shows_row := AllShowsRow {
  row_id : string;
  row_info : show_info;
  first_seen_date : Z
}.

Global Instance all_shows_row_eq_dec : EqDecision all_shows_row.
Proof. solve_decision. Defined.

(** The three tables made by [initialize_database]. *)
Record database := Database {
  shows : list (string * show_info);
  all_shows : list all_shows_row;
  user_blacklists : list (Z * string)
}.

(** The store as the program's connections see it. *)
Record world := World {
  committed : database;
  history : list database
}.

(** [conn.commit()]: the connection's working copy becomes the committed
    database, and is recorded as one more state that readers could see. *)
Definition commit (w : world) (conn : database) : world :=
  {| committed := conn; history := history w ++ [conn] |}.

Definition set_shows (rows : list (string * show_info)) (d : database) : database :=
  {| shows := rows; all_shows := all_shows d; user_blacklists := user_blacklists d |}.

Definition set_all_shows (rows : list all_shows_row) (d : database) : database :=
  {| shows := shows d; all_shows := rows; user_blacklists := user_blacklists d |}.

Definition set_user_blacklists (rows : list (Z * string)) (d : database) : database :=
  {| shows := shows d; all_shows := all_shows d; user_blacklists := rows |}.

(** ** Store functions *)

(** [CREATE TABLE IF NOT EXISTS] on a table that exists, then a commit. *)
Definition create_shows_table (w : world) : world := commit w (committed w).
Definition create_all_shows_table (w : world) : world := commit w (committed w).
Definition create_user_blacklists_table (w : world) : world := commit w (committed w).

Definition initialize_database (w : world) : world :=
  create_user_blacklists_table (create_all_shows_table (create_shows_table w)).

(** [{row[0]: {...} for row in cur.fetchall()}]: a later row with the same id
    would overwrite an earlier one. *)
Definition dict_of_rows (rows : list (string * show_info)) : gmap string show_info :=
  foldl (λ acc row, <[row.1 := row.2]> acc) ∅ rows.

(** [SELECT id, name, url, image_url FROM shows], read by a connection of its
    own from the committed database. *)
Definition get_existing_shows (w : world) : gmap string show_info :=
  dict_of_rows (shows (committed w)).

Definition delete_all_shows (w : world) : world :=
  let conn := committed w in
  commit w (set_shows [] conn).

(** One [INSERT INTO shows] inside a transaction.  [None] is the aborted
    transaction: the insert that violates the primary key raises, the loop of
    [insert_all_shows] logs it, and every later statement of the same
    transaction raises as well. *)
Definition insert_show (tx : option (list (string * show_info)))
    (item : string * show_info) : option (list (string * show_info)) :=
  match tx with
  | None => None
  | Some rows =>
      if decide (item.1 ∈ rows.*1) then None else Some (rows ++ [item])
  end.

(** Committing an aborted transaction rolls it back. *)
Definition insert_all_shows (d : gmap string show_info) (w : world) : world :=
  let conn := committed w in
  match foldl insert_show (Some (shows conn)) (map_to_list d) with
  | Some rows => commit w (set_shows rows conn)
  | None => commit w conn
  end.

(** [INSERT INTO all_shows ... ON CONFLICT (id) DO NOTHING]; the column
    [first_seen_date] takes its default, the time [now] of the statement. *)
Definition insert_all_shows_row (now : Z) (rows : list all_shows_row)
    (item : string * show_info) : list all_shows_row :=
  if decide (item.1 ∈ row_id <$> rows) then rows
  else rows ++ [AllShowsRow item.1 item.2 now].

Definition add_to_all_shows (d : gmap string show_info) (now : Z) (w : world) : world :=
  let conn := committed w in
  commit w (set_all_shows (foldl (insert_all_shows_row now) (all_shows conn) (map_to_list d)) conn).

(** ** The body of [scrape_and_process] *)

(** [{show_id: scraped_shows_dict[show_id] for show_id in new_show_ids}],
    over the ids in the order [ids]; [inl k] is the [KeyError] of a missing
    key [k]. *)
Definition dict_of_ids_step (d : gmap string show_info)
    (acc : string + gmap string show_info) (show_id : string)
    : string + gmap string show_info :=
  match acc with
  | inl k => inl k
  | inr m =>
      match d !! show_id with
      | Some info => inr (<[show_id := info]> m)
      | None => inl show_id
      end
  end.

Definition dict_of_ids (d : gmap string show_info) (ids : list string)
    : string + gmap string show_info :=
  foldl (dict_of_ids_step d) (inr ∅) ids.

Definition new_show_ids (scraped_shows_dict existing_shows : gmap string show_info)
    : gset string :=
  let existing_show_ids : gset string := dom existing_shows in
  let scraped_show_ids : gset string := dom scraped_shows_dict in
  scraped_show_ids ∖ existing_show_ids.

Definition new_shows (scraped_shows_dict existing_shows : gmap string show_info)
    : string + gmap string show_info :=
  dict_of_ids scraped_shows_dict
    (elements (new_show_ids scraped_shows_dict existing_shows)).

(** ** Messaging requests *)

Inductive colour := Red.

Record embed := Embed {
  title : string;
  embed_url : string;
  color : option colour;
  image : option string
}.

(** The button attached to a direct message; label, style and custom id are
    presentation and are left out. *)
Record BlacklistButton := Button {
  show_id : string;
  show_name : string;
  user_id : Z;
  disabled : bool
}.

Inductive request :=
  | ChannelSend (content : option string) (embeds : list embed)
  | UserSend (user : Z) (e : embed) (view : option BlacklistButton).

Global Instance colour_eq_dec : EqDecision colour.
Proof. solve_decision. Defined.
Global Instance embed_eq_dec : EqDecision embed.
Proof. solve_decision. Defined.
Global Instance BlacklistButton_eq_dec : EqDecision BlacklistButton.
Proof. solve_decision. Defined.
Global Instance request_eq_dec : EqDecision request.
Proof. solve_decision. Defined.

(** [f"{show_info['name']} (Show ID: {show_id})"] *)
Definition show_title (id : string) (info : show_info) : string :=
  name info +:+ " (Show ID: " +:+ id +:+ ")".

(** [if show_info['image_url']: embed.set_image(url=...)]: [None] and the
    empty string are false. *)
Definition set_image (e : embed) (u : option string) : embed :=
  match u with
  | Some s =>
      if decide (s = "") then e
      else {| title := title e; embed_url := embed_url e; color := color e; image := Some s |}
  | None => e
  end.

Definition channel_embed (id : string) (info : show_info) : embed :=
  set_image {| title := show_title id info; embed_url := url info;
               color := Some Red; image := None |} (image_url info).

Definition dm_embed (id : string) (info : show_info) : embed :=
  set_image {| title := show_title id info; embed_url := url info;
               color := None; image := None |} (image_url info).

(** [send_discord_message(message_text=..., embeds=...)] *)
Definition send_discord_message (message_text : option string) (embeds : list embed)
    : list request :=
  [ChannelSend message_text embeds].

(** [send_user_dm(user, embed, view)] *)
Definition send_user_dm (user : Z) (e : embed) (view : option BlacklistButton)
    : list request :=
  [UserSend user e view].

(** ** scrape_and_process *)

(** What the browser part of [scrape_and_process] (lines 181 to 247) hands to
    the rest: an exception raised inside the [try], a page without the
    [event-info] div, or the dictionary of the scraped shows.  Starting the
    browser (lines 170 to 178) comes before the [try] and is no part of it. *)
Inductive observation :=
  | Raised (e : string)
  | NoEventInfo
  | Scraped (scraped_shows_dict : gmap string show_info).

(** The coroutines that [scrape_and_process] posts on the bot's loop with
    [asyncio.run_coroutine_threadsafe]. *)
Inductive coroutine :=
  | NotifyUsersAboutNewShows (new_shows : gmap string show_info)
  | SendDiscordMessage (message_text : string).

Definition warning_message : string :=
  "Warning: Could not find the event-info div. The page structure might have changed.".

Definition error_message (e : string) : string := "An error occurred: " +:+ e.

Definition scrape_and_process (obs : observation) (now : Z) (w : world)
    : world * list coroutine :=
  let w := initialize_database w in
  match obs with
  | Scraped scraped_shows_dict =>
      let w := add_to_all_shows scraped_shows_dict now w in
      let existing_shows := get_existing_shows w in
      match new_shows scraped_shows_dict existing_shows with
      | inr new_shows =>
          let w := delete_all_shows w in
          let w := insert_all_shows scraped_shows_dict w in
          if decide (new_shows = ∅) then (w, [])
          else (w, [NotifyUsersAboutNewShows new_shows])
      | inl k => (w, [SendDiscordMessage (error_message ("'" +:+ k +:+ "'"))])
      end
  | NoEventInfo => (w, [SendDiscordMessage warning_message])
  | Raised e => (w, [SendDiscordMessage (error_message e)])
  end.

(** ** notify_users_about_new_shows *)

(** A guild member as the fanout uses it: its id and its [bot] flag. *)
Record member := Member {
  member_id : Z;
  bot : bool
}.

(** The set built from [bot.guilds]; members compare by id, so one user who
    is in several guilds is in the set once. *)
Definition users_to_notify (guilds : list (list member)) : gset Z :=
  foldl (λ acc guild,
           foldl (λ acc m, if bot m then acc else acc ∪ {[member_id m]}) acc guild)
        ∅ guilds.

(** What happens to the blacklist read of lines 372 to 399.  The connection
    is opened before the [try]; the query and [fetchall] run inside it. *)
Inductive blacklist_read :=
  | ConnectionRaises
  | QueryRaises
  | QueryReturns.

Global Instance blacklist_read_eq_dec : EqDecision blacklist_read.
Proof. solve_decision. Defined.

(** [SELECT user_id, show_id FROM user_blacklists WHERE show_id = ANY(%s)] *)
Definition select_blacklists (new_show_ids : list string) (d : database)
    : list (Z * string) :=
  filter (λ row, row.2 ∈ new_show_ids) (user_blacklists d).

(** The dictionary [user_id -> set of show ids] built from the rows. *)
Definition group_blacklists (rows : list (Z * string)) : gmap Z (gset string) :=
  foldl (λ acc row,
           let acc :=
             match acc !! row.1 with
             | None => <[row.1 := ∅]> acc
             | Some _ => acc
             end in
           <[row.1 := default ∅ (acc !! row.1) ∪ {[row.2]}]> acc)
        ∅ rows.

(** The [try] of lines 374 to 396: the dictionary built from the rows of the
    query, or the empty dictionary of the [except] branch when the query
    raises.  (With [ConnectionRaises] the [try] is not reached.) *)
Definition fetched_blacklists (read : blacklist_read)
    (new_shows : gmap string show_info) (w : world) : gmap Z (gset string) :=
  match read with
  | QueryReturns =>
      let new_show_ids := (map_to_list new_shows).*1 in
      group_blacklists (select_blacklists new_show_ids (committed w))
  | _ => ∅
  end.

(** The first loop: one channel message per new show. *)
Definition channel_requests (new_shows : gmap string show_info) : list request :=
  item ← map_to_list new_shows;
  send_discord_message None [channel_embed item.1 item.2].

(** The body of the last loop for one user. *)
Definition user_requests (new_shows : gmap string show_info)
    (user_blacklists : gmap Z (gset string)) (user : Z) : list request :=
  let blacklisted_show_ids : gset string := default ∅ (user_blacklists !! user) in
  let shows_to_notify := filter (λ item, item.1 ∉ blacklisted_show_ids) new_shows in
  if decide (shows_to_notify = ∅) then []
  else
    item ← map_to_list shows_to_notify;
    send_user_dm user (dm_embed item.1 item.2)
      (Some (Button item.1 (name item.2) user false)).

(** The result is the list of requests in the order they are made, and
    whether the coroutine returned ([true]) or raised ([false]). *)
Definition notify_users_about_new_shows (read : blacklist_read)
    (guilds : list (list member)) (new_shows : gmap string show_info) (w : world)
    : list request * bool :=
  if decide (new_shows = ∅) then ([], true)
  else
    let sent := channel_requests new_shows in
    let users := users_to_notify guilds in
    match read with
    | ConnectionRaises => (sent, false)
    | QueryRaises | QueryReturns =>
        let user_blacklists := fetched_blacklists read new_shows w in
        (sent ++ (user ← elements users; user_requests new_shows user_blacklists user), true)
    end.

(** Running one posted coroutine on the loop. *)
Definition run_coroutine (read : blacklist_read) (guilds : list (list member))
    (w : world) (c : coroutine) : list request :=
  match c with
  | NotifyUsersAboutNewShows new_shows =>
      (notify_users_about_new_shows read guilds new_shows w).1
  | SendDiscordMessage message_text => send_discord_message (Some message_text) []
  end.

(** One run: [scrape_and_process], then the coroutines it posted. *)
Definition run (obs : observation) (now : Z) (read : blacklist_read)
    (guilds : list (list member)) (w : world) : world * list request :=
  let '(w', posted) := scrape_and_process obs now w in
  (w', c ← posted; run_coroutine read guilds w' c).

(** ** The blacklist button and the blacklist commands *)

Inductive reply :=
  | Defer (ephemeral : bool)
  | FollowupSend (text : string) (ephemeral : bool)
  | MessageEdit (view : BlacklistButton)
  | Respond (text : string) (ephemeral : bool).

(** [INSERT INTO user_blacklists ... ON CONFLICT DO NOTHING] *)
Definition insert_user_blacklist (row : Z * string) (rows : list (Z * string))
    : list (Z * string) :=
  if decide (row ∈ rows) then rows else rows ++ [row].

(** [DELETE FROM user_blacklists WHERE user_id = %s AND show_id = %s] *)
Definition delete_user_blacklist (row : Z * string) (rows : list (Z * string))
    : list (Z * string) :=
  filter (λ r, ¬ (r.1 = row.1 ∧ r.2 = row.2)) rows.

(** [SELECT name FROM <table> WHERE id = %s] followed by [fetchone()] *)
Definition select_name (id : string) (rows : list (string * show_info))
    : option string :=
  (λ row, name row.2) <$> head (filter (λ row, row.1 = id) rows).

Definition added_message (show_name : string) : string :=
  "**`" +:+ show_name +:+ "`** has been added to your blacklist.".

Definition removed_message (show_name : string) : string :=
  "**`" +:+ show_name +:+ "`** has been removed from your blacklist.".

(** [BlacklistButton.callback]: [interaction_user] is [interaction.user.id].
    The result is the button, the world and the replies, in order. *)
Definition callback (self : BlacklistButton) (interaction_user : Z) (w : world)
    : BlacklistButton * world * list reply :=
  if decide (interaction_user ≠ user_id self) then
    (self, w, [Defer true; FollowupSend "This button is not for you!" true])
  else
    let conn := committed w in
    let w := commit w (set_user_blacklists
                         (insert_user_blacklist (interaction_user, show_id self)
                            (user_blacklists conn)) conn) in
    let self := {| show_id := show_id self; show_name := show_name self;
                   user_id := user_id self; disabled := true |} in
    (self, w, [Defer true; FollowupSend (added_message (show_name self)) true;
               MessageEdit self]).

(** The [blacklist_remove] command; [author] is [ctx.author.id]. *)
Definition blacklist_remove (author : Z) (show_id : string) (w : world)
    : world * list reply :=
  let conn := committed w in
  match select_name show_id (shows conn) with
  | Some show_name =>
      (commit w (set_user_blacklists
                   (delete_user_blacklist (author, show_id) (user_blacklists conn)) conn),
       [Respond (removed_message show_name) true])
  | None =>
      (w, [Respond "Show ID not found. Please check the ID and try again." true])
  end.

(** ** The other blacklist commands *)

(** [SELECT name FROM all_shows WHERE id = %s] followed by [fetchone()] *)
Definition select_all_shows_name (id : string) (rows : list all_shows_row)
    : option string :=
  (λ row, name (row_info row)) <$> head (filter (λ row, row_id row = id) rows).

(** The [blacklist_add] command; [author] is [ctx.author.id]. *)
Definition blacklist_add (author : Z) (show_id : string) (w : world)
    : world * list reply :=
  let conn := committed w in
  match select_all_shows_name show_id (all_shows conn) with
  | Some show_name =>
      (commit w (set_user_blacklists
                   (insert_user_blacklist (author, show_id) (user_blacklists conn)) conn),
       [Respond (added_message show_name) true])
  | None =>
      (w, [Respond "Show ID not found in the all shows list. Please check the ID and try again."
             true])
  end.

(** The names selected by [SELECT shows.name FROM user_blacklists JOIN shows
    ON user_blacklists.show_id = shows.id WHERE user_blacklists.user_id = %s]:
    one for each pair of a row of the caller in [user_blacklists] and a row
    of [shows] with its show id.  The query has no [ORDER BY], so the list
    stands for the names and how often each occurs, not for an order. *)
Definition joined_names (author : Z) (d : database) : list string :=
  entry ← filter (λ row, row.1 = author) (user_blacklists d);
  row ← filter (λ row, row.1 = entry.2) (shows d);
  [name row.2].

(** [rows] is a possible result of [cur.fetchall()] for the query: the
    selected names in the order the database returns them. *)
Definition fetched_names (author : Z) (d : database) (rows : list string) : Prop :=
  rows ≡ₚ joined_names author d.

(** The bullet of the listing, U+2022, in UTF-8. *)
Definition bullet : string :=
  String "226"%char (String "128"%char (String "162"%char "")).

Definition newline : string := String "010"%char "".

(** [f"• **`{row[0]}`**"] *)
Definition bullet_line (show_name : string) : string :=
  bullet +:+ " **`" +:+ show_name +:+ "`**".

(** The [blacklist_list] command on the rows fetched. *)
Definition blacklist_list (rows : list string) : list reply :=
  if decide (rows = []) then [Respond "Your blacklist is empty." true]
  else
    let show_names := bullet_line <$> rows in
    [Respond ("Your blacklisted shows:" +:+ newline +:+ String.concat newline show_names)
       true].

(** ** The listing commands [all_shows] and [current_shows] *)

Inductive listing_colour := Blue | Green.

(** An embed of a listing: its title, its colour and its fields, each with a
    name, a value and the [inline] flag. *)
Record listing_embed := ListingEmbed {
  listing_title : string;
  listing_color : listing_colour;
  fields : list (string * string * bool)
}.

Inductive listing_reply :=
  | RespondText (text : string) (ephemeral : bool)
  | RespondEmbed (e : listing_embed) (ephemeral : bool).

(** The zero-width space U+200B, in UTF-8. *)
Definition zero_width_space : string :=
  String "226"%char (String "128"%char (String "139"%char "")).

(** [add_field(name=f"{name} (ID: {show_id})", value=<U+200B>, inline=True)]
    for a fetched row [(show_id, name, image_url)]. *)
Definition listing_field (row : string * string * option string)
    : string * string * bool :=
  (row.1.2 +:+ " (ID: " +:+ row.1.1 +:+ ")", zero_width_space, true).

Definition add_field (e : listing_embed) (f : string * string * bool) : listing_embed :=
  {| listing_title := listing_title e; listing_color := listing_color e;
     fields := fields e ++ [f] |}.

(** One iteration of the loop over the fetched rows; the state is [embeds],
    [current_embed] and [field_count]. *)
Definition listing_step (continued : string) (colour : listing_colour)
    (st : list listing_embed * listing_embed * nat)
    (row : string * string * option string)
    : list listing_embed * listing_embed * nat :=
  let '(embeds, current_embed, field_count) := st in
  let '(embeds, current_embed, field_count) :=
    if decide (field_count = 25) then
      (embeds ++ [current_embed], ListingEmbed continued colour [], 0)
    else (embeds, current_embed, field_count) in
  (embeds, add_field current_embed (listing_field row), S field_count).

(** The embeds built from the fetched rows, the last one appended when it
    has a field. *)
Definition listing_embeds (title continued : string) (colour : listing_colour)
    (shows : list (string * string * option string)) : list listing_embed :=
  let '(embeds, current_embed, field_count) :=
    foldl (listing_step continued colour) ([], ListingEmbed title colour [], 0) shows in
  if decide (0 < field_count) then embeds ++ [current_embed] else embeds.

(** The [all_shows] command on the rows fetched by
    [SELECT id, name, image_url FROM all_shows ORDER BY name]. *)
Definition all_shows_command (fetched : list (string * string * option string))
    : list listing_reply :=
  if decide (fetched = []) then [RespondText "No shows found in the database." true]
  else
    (λ e, RespondEmbed e true)
      <$> listing_embeds "All Shows History" "All Shows History (Continued)" Blue fetched.

(** The [current_shows] command on the rows fetched by
    [SELECT id, name, image_url FROM shows ORDER BY name]. *)
Definition current_shows_command (fetched : list (string * string * option string))
    : list listing_reply :=
  if decide (fetched = []) then [RespondText "No current shows available." true]
  else
    (λ e, RespondEmbed e true)
      <$> listing_embeds "Currently Available Shows"
            "Currently Available Shows (Continued)" Green fetched.

(** The columns [id, name, image_url] of the two tables. *)
Definition all_shows_columns (d : database) : list (string * string * option string) :=
  (λ row, (row_id row, name (row_info row), image_url (row_info row))) <$> all_shows d.

Definition shows_columns (d : database) : list (string * string * option string) :=
  (λ row, (row.1, name row.2, image_url row.2)) <$> shows d.

(** ** scraping_task *)

(** One iteration of the loop; [hour] is [datetime.now(PST_TIMEZONE).hour]. *)
Definition scraping_task (hour : Z) (obs : observation) (now : Z) (w : world)
    : world * list coroutine :=
  if decide (8 ≤ hour < 17)%Z then scrape_and_process obs now w
  else (w, []).

(** The database after successive iterations, each given by its hour, its
    observation and its time. *)
Definition scraping_iterations (ticks : list (Z * observation * Z)) (w : world) : world :=
  foldl (λ w tick, (scraping_task tick.1.1 tick.1.2 tick.2 w).1) w ticks.

(** ** scrape_and_process from the start of the browser *)

(** [webdriver.Chrome(...)] of line 178 either raises or gives the driver
    with which the [try] of line 180 makes its observation. *)
Inductive collector :=
  | ChromeRaises (e : string)
  | ChromeStarted (obs : observation).

(** The whole of [scrape_and_process].  The browser is started after
    [initialize_database] and before the [try]: an exception of it leaves the
    function with nothing posted.  The third component is the exception that
    leaves the function, if any. *)
Definition scrape_and_process_from_start (c : collector) (now : Z) (w : world)
    : world * list coroutine * option string :=
  match c with
  | ChromeRaises e => (initialize_database w, [], Some e)
  | ChromeStarted obs =>
      let r := scrape_and_process obs now w in (r.1, r.2, None)
  end.

(** ** What can happen to the store *)

(** An iteration of the scraping task, a blacklist command of some user, or
    an activation of a blacklist button by some user. *)
Inductive store_operation :=
  | Iteration (hour : Z) (obs : observation) (now : Z)
  | BlacklistAdd (author : Z) (id : string)
  | BlacklistRemove (author : Z) (id : string)
  | ButtonPress (self : BlacklistButton) (interaction_user : Z).

Definition apply_operation (w : world) (op : store_operation) : world :=
  match op with
  | Iteration hour obs now => (scraping_task hour obs now w).1
  | BlacklistAdd author id => (blacklist_add author id w).1
  | BlacklistRemove author id => (blacklist_remove author id w).1
  | ButtonPress self interaction_user => (callback self interaction_user w).1.2
  end.

Definition apply_operations (ops : list store_operation) (w : world) : world :=
  foldl apply_operation w ops.

(** ** The panels of the page *)

(** An [a] element as the loop reads it: [link['href']], absent when the
    element has no such attribute, and [link.text.strip()]. *)
Record anchor := Anchor {
  href : option string;
  stripped_text : string
}.

(** A [panel panel-default] div: the [a] descendants of its first
    [panel-heading] div, if it has one, and the [src] attributes of its [img]
    descendants, both in document order. *)
Record panel := Panel {
  heading : option (list anchor);
  images : list (option string)
}.

(** [s.split(sep)] for a separator of one character. *)
Fixpoint split (sep : ascii) (s : string) : list string :=
  match s with
  | EmptyString => [EmptyString]
  | String c s' =>
      if decide (c = sep) then EmptyString :: split sep s'
      else
        match split sep s' with
        | piece :: pieces => String c piece :: pieces
        | [] => [String c EmptyString]
        end
  end.

(** [s[1:]] *)
Definition drop_first (s : string) : string :=
  match s with
  | EmptyString => EmptyString
  | String _ s' => s'
  end.

(** [href and href.startswith(prefix)], also used for [src]. *)
Definition attr_startswith (prefix : string) (attr : option string) : bool :=
  match attr with
  | Some s => if decide (s = "") then false else String.prefix prefix s
  | None => false
  end.

(** [heading.find('a', href=lambda href: ...)] *)
Definition find_link (anchors : list anchor) : option anchor :=
  head (filter (λ a, attr_startswith "./tickets/view/" (href a) = true) anchors).

(** [panel.find('img', src=lambda src: ...)], giving [image_tag['src']]. *)
Definition find_image (srcs : list (option string)) : option string :=
  mjoin (head (filter (λ src, attr_startswith "/resources/media/" src = true) srcs)).

(** The body of the loop over the panels. *)
Definition scrape_panel (scraped_shows_dict : gmap string show_info) (p : panel)
    : gmap string show_info :=
  match heading p with
  | None => scraped_shows_dict
  | Some anchors =>
      match find_link anchors with
      | None => scraped_shows_dict
      | Some link =>
          let link_href := default "" (href link) in
          let show_name := stripped_text link in
          let show_id := List.last (split "="%char link_href) "" in
          let show_url := "https://lv.houseseats.com/member" +:+ drop_first link_href in
          let image_url :=
            match find_image (images p) with
            | Some src => Some ("https://lv.houseseats.com" +:+ src)
            | None => None
            end in
          if decide (show_name = "" ∨ show_name = "[...]") then scraped_shows_dict
          else <[show_id := ShowInfo show_name show_url image_url]> scraped_shows_dict
      end
  end.

Definition scrape_panels (panels : list panel) : gmap string show_info :=
  foldl scrape_panel ∅ panels.

(** What the parsed page gives: [None] when [soup.find('div', id='event-info')]
    finds nothing, else the panels found in the div. *)
Definition observe_page (event_info_div : option (list panel)) : observation :=
  match event_info_div with
  | Some panels => Scraped (scrape_panels panels)
  | None => NoEventInfo
  end.

(** ** Auxiliary notions for the statements *)

Definition is_channel_send (r : request) : Prop :=
  match r with ChannelSend _ _ => True | UserSend _ _ _ => False end.

Definition is_user_send (r : request) : Prop :=
  match r with ChannelSend _ _ => False | UserSend _ _ _ => True end.

(** What the loop of the listing keeps true of [embeds], [current_embed] and
    [field_count] after the rows [l]. *)
Definition listing_invariant (title continued : string) (colour : listing_colour)
    (l : list (string * string * option string))
    (st : list listing_embed * listing_embed * nat) : Prop :=
  st.2 = length (fields st.1.2)
  ∧ st.2 ≤ 25
  ∧ (l ≠ [] → 0 < st.2)
  ∧ Forall (λ e, length (fields e) = 25) st.1.1
  ∧ concat (fields <$> st.1.1) ++ fields st.1.2 = listing_field <$> l
  ∧ listing_title <$> (st.1.1 ++ [st.1.2])
    = title :: replicate (length st.1.1) continued
  ∧ Forall (λ e, listing_color e = colour) (st.1.1 ++ [st.1.2]).

(** The fields that a reply of a listing command shows. *)
Definition reply_fields (r : listing_reply) : list (string * string * bool) :=
  match r with
  | RespondEmbed e _ => fields e
  | RespondText _ _ => []
  end.

Definition reply_ephemeral (r : listing_reply) : bool :=
  match r with
  | RespondEmbed _ ephemeral | RespondText _ ephemeral => ephemeral
  end.

(** What holds of every entry that the loop over the panels stores. *)
Definition scraped_entry_ok (id : string) (info : show_info) : Prop :=
  name info ≠ "" ∧ name info ≠ "[...]"
  ∧ (∃ rest, url info = "https://lv.houseseats.com/member/tickets/view/" +:+ rest)
  ∧ ("="%char ∉ String.list_ascii_of_string id)
  ∧ (∀ img, image_url info = Some img →
        ∃ rest, img = "https://lv.houseseats.com/resources/media/" +:+ rest).

(** A panel that the loop passes over: it has no heading, or no ticket link
    in the heading, or the text of the link is empty or is [[...]]. *)
Definition panel_skipped (p : panel) : Prop :=
  match heading p with
  | None => True
  | Some anchors =>
      match find_link anchors with
      | None => True
      | Some link => stripped_text link = "" ∨ stripped_text link = "[...]"
      end
  end.

(** The observation failed: an exception inside the [try], or no
    [event-info] div on the page. *)
Definition observation_failed (obs : observation) : Prop :=
  match obs with
  | Raised _ | NoEventInfo => True
  | Scraped _ => False
  end.

(** ** Example data *)

Definition example_show_a : show_info :=
  ShowInfo "Show A" "https://lv.houseseats.com/member/tickets/view/?showid=1" None.

Definition example_show_b : show_info :=
  ShowInfo "Show B" "https://lv.houseseats.com/member/tickets/view/?showid=2"
    (Some "https://lv.houseseats.com/resources/media/b.jpg").

(** The scenario of the specification: the snapshot and the catalog hold
    show 1, and user 7 has blacklisted show 2. *)
Definition example_world : world :=
  World (Database [("1", example_show_a)] [AllShowsRow "1" example_show_a 5] [(7%Z, "2")]) [].

Definition example_scraped : gmap string show_info :=
  <["1" := example_show_a]> (<["2" := example_show_b]> ∅).

Definition example_guilds : list (list member) :=
  [[Member 7 false; Member 8 false; Member 9 true]; [Member 8 false]].

Definition example_new_shows : gmap string show_info := {["2" := example_show_b]}.

(** A panel with a ticket link for show 123 after a link without [href],
    and with a media image after two other images. *)
Definition example_panel : panel :=
  Panel (Some [Anchor None "More"; Anchor (Some "./tickets/view/?showid=123") "Show X"])
        [None; Some "/img/logo.png"; Some "/resources/media/x.jpg"].

(** The store of the scenario after show 2 has come and gone: the catalog
    holds it, the snapshot does not. *)
Definition example_rotated_world : world :=
  World (Database [("1", example_show_a)]
           [AllShowsRow "1" example_show_a 5; AllShowsRow "2" example_show_b 9] []) [].

(** A store in which user 8 has blacklisted the two shows of the snapshot,
    show 2 before show 1. *)
Definition example_listing_world : world :=
  World (Database [("1", example_show_a); ("2", example_show_b)] []
           [(8%Z, "2"); (7%Z, "1"); (8%Z, "1")]) [].

(** * Properties *)

(** ** Reading the snapshot table *)

Section reading.
Implicit Types (rows l : list (string * show_info)) (scraped : gmap string show_info).

Lemma dict_of_rows_acc l (m : gmap string show_info) :
  foldl (λ acc row, <[row.1 := row.2]> acc) m l = list_to_map (reverse l) ∪ m.
Proof.
  revert m. induction l as [|[k v] l IH]; intros m; simpl.
  - by rewrite (left_id_L ∅ (∪)).
  - rewrite IH, reverse_cons, list_to_map_app. simpl.
    rewrite <-(assoc_L (∪)). f_equal.
    by rewrite <-insert_union_l, (left_id_L ∅ (∪)).
Qed.

(** Reading back rows with distinct ids gives the dictionary of the rows. *)
Lemma dict_of_rows_list_to_map l :
  NoDup l.*1 → dict_of_rows l = list_to_map l.
Proof.
  intros Hnd. unfold dict_of_rows.
  rewrite dict_of_rows_acc, (right_id_L ∅ (∪)).
  apply list_to_map_proper.
  - by rewrite fmap_reverse, reverse_Permutation.
  - apply reverse_Permutation.
Qed.

Lemma dict_of_rows_map_to_list scraped : dict_of_rows (map_to_list scraped) = scraped.
Proof.
  rewrite dict_of_rows_list_to_map by apply NoDup_fst_map_to_list.
  apply list_to_map_to_list.
Qed.

(** The ids of the dictionary read from the table are the ids of its rows. *)
Lemma dom_dict_of_rows rows : dom (dict_of_rows rows) = list_to_set rows.*1.
Proof.
  unfold dict_of_rows. rewrite dict_of_rows_acc, (right_id_L ∅ (∪)).
  rewrite dom_list_to_map_L, fmap_reverse. apply set_eq. intros id.
  by rewrite !elem_of_list_to_set, elem_of_reverse.
Qed.
End reading.

(** ** The diff step *)

Section diff.
Implicit Types (d m : gmap string show_info) (ids : list string).

(** With every id a key of [d] no [KeyError] is raised, and the result
    holds the entries of [d] at the ids, on top of the accumulator. *)
Lemma dict_of_ids_acc d ids m :
  (∀ id, id ∈ ids → is_Some (d !! id)) →
  ∃ m', foldl (dict_of_ids_step d) (inr m) ids = inr m'
        ∧ ∀ k, m' !! k = if decide (k ∈ ids) then d !! k else m !! k.
Proof.
  revert m. induction ids as [|id ids IH]; intros m Hin.
  - exists m. split; [done|]. intros k. case_decide as Hk; [|done].
    by apply elem_of_nil in Hk.
  - assert (is_Some (d !! id)) as [info Hinfo] by (apply Hin; left).
    simpl. rewrite Hinfo.
    destruct (IH (<[id := info]> m)) as (m' & Hm' & Hlook).
    { intros id' Hid'. apply Hin. by right. }
    exists m'. split; [done|]. intros k. rewrite Hlook.
    destruct (decide (k ∈ ids)) as [Hk|Hk].
    + rewrite decide_True by (by right). done.
    + destruct (decide (k = id)) as [->|Hne].
      * rewrite lookup_insert_eq, decide_True by left. done.
      * rewrite lookup_insert_ne by done.
        rewrite decide_False; [done|]. rewrite elem_of_cons. by intros [?|?].
Qed.

Lemma dict_of_ids_filter d (X : gset string) ids :
  (∀ id, id ∈ ids ↔ id ∈ X) → X ⊆ dom d →
  dict_of_ids d ids = inr (filter (λ item, item.1 ∈ X) d).
Proof.
  intros Hids Hsub. unfold dict_of_ids.
  destruct (dict_of_ids_acc d ids ∅) as (m' & -> & Hlook).
  { intros id Hid. apply elem_of_dom, Hsub, Hids, Hid. }
  f_equal. apply map_eq. intros k. rewrite Hlook, map_lookup_filter.
  case_decide as Hk.
  - apply Hids in Hk. destruct (d !! k) as [info|]; [|done]. simpl.
    by rewrite option_guard_True.
  - rewrite lookup_empty. destruct (d !! k) as [info|]; [|done]. simpl.
    rewrite option_guard_False; [done|]. intros HX. apply Hk, Hids, HX.
Qed.

Lemma dict_of_ids_difference d (existing : gmap string show_info) ids :
  (∀ id, id ∈ ids ↔ id ∈ new_show_ids d existing) →
  dict_of_ids d ids = inr (filter (λ item, item.1 ∉ dom existing) d).
Proof.
  intros Hids.
  rewrite (dict_of_ids_filter d (new_show_ids d existing) ids Hids).
  - f_equal. apply map_eq. intros k. rewrite !map_lookup_filter.
    destruct (d !! k) as [info|] eqn:Hk; [|done]. simpl.
    assert (k ∈ dom d) by (apply elem_of_dom; eauto).
    unfold new_show_ids.
    destruct (decide (k ∈ dom existing)).
    + rewrite !option_guard_False; [done|set_solver..].
    + rewrite !option_guard_True; [done|set_solver..].
  - unfold new_show_ids. set_solver.
Qed.

(** The diff raises no [KeyError]: it is the filter of the scraped shows. *)
Lemma new_shows_filter d (existing : gmap string show_info) :
  new_shows d existing = inr (filter (λ item, item.1 ∉ dom existing) d).
Proof.
  unfold new_shows. apply dict_of_ids_difference.
  intros id. apply elem_of_elements.
Qed.
End diff.

(** C1. The diff step of [scrape_and_process] raises no [KeyError] and
    returns exactly the scraped shows whose id is not an id of the existing
    snapshot.  The result is the same for every order in which the set of new
    ids is iterated; no scraped show gives no new show, and with no existing
    show every scraped show is new. *)
Theorem new_shows_is_difference (scraped existing : gmap string show_info) :
  new_shows scraped existing
    = inr (filter (λ item, item.1 ∉ dom existing) scraped)
  ∧ (∀ id info,
       filter (λ item, item.1 ∉ dom existing) scraped !! id = Some info
       ↔ scraped !! id = Some info ∧ existing !! id = None)
  ∧ (∀ ids, ids ≡ₚ elements (new_show_ids scraped existing) →
       dict_of_ids scraped ids = new_shows scraped existing)
  ∧ new_shows ∅ existing = inr ∅
  ∧ new_shows scraped ∅ = inr scraped
  ∧ (∀ w, new_shows scraped (get_existing_shows w)
          = inr (filter (λ item, item.1 ∉ (shows (committed w)).*1) scraped)).
Proof.
  split_and!.
  - apply new_shows_filter.
  - intros id info. rewrite map_lookup_filter_Some. simpl.
    by rewrite not_elem_of_dom.
  - intros ids Hperm. rewrite new_shows_filter. apply dict_of_ids_difference.
    intros id. rewrite Hperm. apply elem_of_elements.
  - rewrite new_shows_filter. by rewrite map_filter_empty.
  - rewrite new_shows_filter. f_equal. apply map_filter_id.
    intros id info _. simpl. rewrite dom_empty. set_solver.
  - intros w. rewrite new_shows_filter. f_equal.
    apply map_filter_ext. intros id info _. simpl.
    unfold get_existing_shows. rewrite dom_dict_of_rows.
    by rewrite elem_of_list_to_set.
Qed.

(** ** The snapshot table *)

Section snapshot.
Implicit Types (rows l : list (string * show_info)) (scraped : gmap string show_info).

(** Inserting rows whose ids are new and distinct never aborts. *)
Lemma insert_show_fresh l rows :
  NoDup (rows.*1 ++ l.*1) → foldl insert_show (Some rows) l = Some (rows ++ l).
Proof.
  revert rows. induction l as [|item l IH]; intros rows Hnd; simpl.
  - by rewrite (right_id_L [] (++)).
  - rewrite decide_False.
    + rewrite IH; [by rewrite <-(assoc_L (++))|].
      by rewrite fmap_app, <-(assoc_L (++)).
    + intros Hin. simpl in Hnd. apply NoDup_app in Hnd as (_ & Hdisj & _).
      apply (Hdisj _ Hin). left.
Qed.

Lemma insert_show_aborted l : foldl insert_show None l = None.
Proof. by induction l. Qed.

(** An id that is present makes the whole transaction abort. *)
Lemma insert_show_conflict l rows item :
  item ∈ l → item.1 ∈ rows.*1 → foldl insert_show (Some rows) l = None.
Proof.
  revert rows. induction l as [|x l IH]; intros rows Hin Hrows.
  - by apply elem_of_nil in Hin.
  - simpl. case_decide; [apply insert_show_aborted|].
    apply elem_of_cons in Hin as [->|Hin]; [done|].
    apply IH; [done|]. rewrite fmap_app. apply elem_of_app. by left.
Qed.

(** Rewriting the snapshot: the delete and the inserts, each committed. *)
Lemma insert_after_delete scraped (w : world) :
  insert_all_shows scraped (delete_all_shows w)
  = commit (delete_all_shows w) (set_shows (map_to_list scraped) (committed w)).
Proof.
  unfold insert_all_shows. simpl.
  rewrite insert_show_fresh by (simpl; apply NoDup_fst_map_to_list). done.
Qed.

(** A run whose observation succeeds: the database it leaves and the
    coroutine it posts. *)
Lemma scrape_and_process_scraped scraped (now : Z) (w : world) :
  let r := scrape_and_process (Scraped scraped) now w in
  let ns := filter (λ item, item.1 ∉ (shows (committed w)).*1) scraped in
  committed r.1
  = {| shows := map_to_list scraped;
       all_shows := foldl (insert_all_shows_row now) (all_shows (committed w))
                          (map_to_list scraped);
       user_blacklists := user_blacklists (committed w) |}
  ∧ r.2 = if decide (ns = ∅) then [] else [NotifyUsersAboutNewShows ns].
Proof.
  unfold scrape_and_process. rewrite new_shows_filter, insert_after_delete.
  assert (filter (λ item, item.1 ∉ dom (get_existing_shows
                    (add_to_all_shows scraped now (initialize_database w)))) scraped
          = filter (λ item, item.1 ∉ (shows (committed w)).*1) scraped) as ->.
  { apply map_filter_ext. intros id info _. simpl.
    unfold get_existing_shows. simpl. rewrite dom_dict_of_rows.
    by rewrite elem_of_list_to_set. }
  simpl. by case_decide.
Qed.
End snapshot.

(** C2, as stated, fails: between the commit of [delete_all_shows] and the
    commit of [insert_all_shows] the committed snapshot is empty, which is
    neither the prior snapshot nor the new one. *)
Lemma snapshot_rewrite_not_atomic :
  history (insert_all_shows example_scraped (delete_all_shows example_world)) !! 0%nat
    = Some (set_shows [] (committed example_world))
  ∧ dict_of_rows (shows (set_shows [] (committed example_world)))
      ≠ get_existing_shows example_world
  ∧ dict_of_rows (shows (set_shows [] (committed example_world)))
      ≠ example_scraped.
Proof.
  split_and!.
  - unfold insert_all_shows. simpl.
    rewrite insert_show_fresh by (simpl; apply NoDup_fst_map_to_list). done.
  - intros Heq. apply (f_equal (λ m, m !! "1")) in Heq. by vm_compute in Heq.
  - intros Heq. apply (f_equal (λ m, m !! "1")) in Heq. by vm_compute in Heq.
Qed.

(** C2, amended.  Rewriting the snapshot publishes exactly two states, the
    one with an empty [shows] table and then the one whose [shows] table
    holds the rows of the scraped dictionary and nothing else; the other
    tables are the same in both.  A read after the rewrite returns exactly
    the scraped dictionary. *)
Theorem snapshot_rewrite_commits (scraped : gmap string show_info) (w : world) :
  let w' := insert_all_shows scraped (delete_all_shows w) in
  history w' = history w ++ [set_shows [] (committed w);
                             set_shows (map_to_list scraped) (committed w)]
  ∧ get_existing_shows (delete_all_shows w) = ∅
  ∧ committed w' = set_shows (map_to_list scraped) (committed w)
  ∧ get_existing_shows w' = scraped
  ∧ (∀ now, get_existing_shows (scrape_and_process (Scraped scraped) now w).1 = scraped).
Proof.
  cbv zeta. rewrite insert_after_delete. split_and!.
  - simpl. by rewrite <-(assoc_L (++)).
  - done.
  - done.
  - apply dict_of_rows_map_to_list.
  - intros now. unfold get_existing_shows.
    destruct (scrape_and_process_scraped scraped now w) as [-> _]. simpl.
    apply dict_of_rows_map_to_list.
Qed.

(** ** The all-time catalog *)

Section catalog.
Variable now : Z.
Implicit Types (rows : list all_shows_row) (l : list (string * show_info)).

Lemma add_rows_prefix l rows :
  rows `prefix_of` foldl (insert_all_shows_row now) rows l.
Proof.
  revert rows. induction l as [|item l IH]; intros rows; simpl; [done|].
  etrans; [|apply IH]. unfold insert_all_shows_row.
  case_decide; [done|]. by apply prefix_app_r.
Qed.

(** The primary key of [all_shows] is kept. *)
Lemma add_rows_NoDup l rows :
  NoDup (row_id <$> rows) →
  NoDup (row_id <$> foldl (insert_all_shows_row now) rows l).
Proof.
  revert rows. induction l as [|item l IH]; intros rows Hnd; simpl; [done|].
  apply IH. unfold insert_all_shows_row. case_decide as Hin; [done|].
  rewrite fmap_app. apply NoDup_app. split_and!; [done| |apply NoDup_singleton].
  intros id Hid ->%list_elem_of_singleton. done.
Qed.

(** Items whose ids are all in the table add nothing. *)
Lemma add_rows_present l rows :
  (∀ item, item ∈ l → item.1 ∈ row_id <$> rows) →
  foldl (insert_all_shows_row now) rows l = rows.
Proof.
  induction l as [|item l IH]; intros Hin; simpl; [done|].
  unfold insert_all_shows_row at 2. rewrite decide_True by (apply Hin; left).
  apply IH. intros item' Hitem'. apply Hin. by right.
Qed.

(** An item whose id is not in the table gets a row stamped [now]. *)
Lemma add_rows_fresh l rows id info :
  (id, info) ∈ l → NoDup l.*1 → id ∉ row_id <$> rows →
  AllShowsRow id info now ∈ foldl (insert_all_shows_row now) rows l.
Proof.
  revert rows. induction l as [|item l IH]; intros rows Hin Hnd Hfresh.
  - by apply elem_of_nil in Hin.
  - simpl in *. apply NoDup_cons in Hnd as [Hitem Hnd].
    apply elem_of_cons in Hin as [<-|Hin].
    + eapply elem_of_prefix; [|apply add_rows_prefix].
      unfold insert_all_shows_row. simpl. rewrite decide_False by done.
      apply elem_of_app. right. left.
    + apply IH; [done..|]. unfold insert_all_shows_row.
      case_decide; [done|]. rewrite fmap_app, elem_of_app. simpl.
      intros [?| ->%list_elem_of_singleton]; [done|].
      apply Hitem. by apply (list_elem_of_fmap_2 fst) in Hin.
Qed.
End catalog.

Lemma filter_none {A} (P : A → Prop) `{∀ x, Decision (P x)} (l : list A) :
  (∀ y, y ∈ l → ¬ P y) → filter P l = [].
Proof.
  induction l as [|y l IH]; intros Hno; [done|].
  rewrite filter_cons_False by (apply Hno; left).
  apply IH. intros z Hz. apply Hno. by right.
Qed.

(** In a list without two elements of the same key, the elements that have
    the key of [x] are [x] alone. *)
Lemma filter_key_NoDup {A K} `{EqDecision K} (f : A → K) (l : list A) (x : A) :
  NoDup (f <$> l) → x ∈ l → filter (λ y, f y = f x) l = [x].
Proof.
  induction l as [|y l IH]; intros Hnd Hin.
  - by apply elem_of_nil in Hin.
  - simpl in Hnd. apply NoDup_cons in Hnd as [Hy Hnd].
    apply elem_of_cons in Hin as [->|Hin].
    + rewrite filter_cons_True by done. f_equal.
      apply filter_none. intros z Hz Heq. apply Hy.
      rewrite <-Heq. by apply list_elem_of_fmap_2.
    + rewrite filter_cons_False; [by apply IH|].
      intros Heq. apply Hy. rewrite Heq. by apply list_elem_of_fmap_2.
Qed.

(** C4. When [all_shows] holds a row for an id, [add_to_all_shows] leaves it
    the only row of that id, with its name, url, image url and first-seen
    date as they were.  The rows present before stay, in place, so the
    catalog only grows; and adding shows whose ids are all present changes
    nothing. *)
Theorem add_to_all_shows_idempotent
    (d : gmap string show_info) (now : Z) (w : world) (row : all_shows_row) :
  NoDup (row_id <$> all_shows (committed w)) →
  row ∈ all_shows (committed w) →
  let w' := add_to_all_shows d now w in
  filter (λ r, row_id r = row_id row) (all_shows (committed w')) = [row]
  ∧ all_shows (committed w) `prefix_of` all_shows (committed w')
  ∧ (dom d ⊆ list_to_set (row_id <$> all_shows (committed w)) →
     all_shows (committed w') = all_shows (committed w))
  ∧ (∀ later, all_shows (committed (add_to_all_shows d later w'))
                = all_shows (committed w'))
  ∧ (∀ obs later,
       all_shows (committed w)
         `prefix_of` all_shows (committed (scrape_and_process obs later w).1)).
Proof.
  intros Hnd Hrow. cbv zeta.
  change (all_shows (committed (add_to_all_shows d now w)))
    with (foldl (insert_all_shows_row now) (all_shows (committed w)) (map_to_list d)).
  pose proof (add_rows_prefix now (map_to_list d) (all_shows (committed w))) as Hpre.
  pose proof (add_rows_NoDup now (map_to_list d) _ Hnd) as Hnd'.
  split_and!.
  - apply filter_key_NoDup; [done|]. by eapply elem_of_prefix.
  - done.
  - intros Hdom. apply add_rows_present. intros [id info] Hitem. simpl.
    apply elem_of_map_to_list in Hitem.
    assert (id ∈ dom d) as Hid by (apply elem_of_dom; eauto).
    apply Hdom in Hid. by apply elem_of_list_to_set in Hid.
  - intros later. apply add_rows_present. intros [id info] Hitem. simpl.
    destruct (decide (id ∈ row_id <$> all_shows (committed w))) as [Hin|Hout].
    + destruct Hpre as [new ->]. rewrite fmap_app. apply elem_of_app. by left.
    + pose proof (add_rows_fresh now _ _ _ _ Hitem
                    (NoDup_fst_map_to_list d) Hout) as Hnew.
      by apply (list_elem_of_fmap_2 row_id) in Hnew.
  - intros [err| |scraped] later; [done..|].
    destruct (scrape_and_process_scraped scraped later w) as [-> _]. simpl.
    apply add_rows_prefix.
Qed.

Lemma add_to_all_shows_idempotent_witness :
  NoDup (row_id <$> all_shows (committed example_world))
  ∧ AllShowsRow "1" example_show_a 5 ∈ all_shows (committed example_world)
  ∧ let w' := add_to_all_shows example_scraped 9 example_world in
    filter (λ r, row_id r = "1") (all_shows (committed w'))
      = [AllShowsRow "1" example_show_a 5]
    ∧ all_shows (committed example_world) `prefix_of` all_shows (committed w')
    ∧ (dom example_scraped
         ⊆ list_to_set (row_id <$> all_shows (committed example_world)) →
       all_shows (committed w') = all_shows (committed example_world))
    ∧ (∀ later, all_shows (committed (add_to_all_shows example_scraped later w'))
                  = all_shows (committed w'))
    ∧ (∀ obs later,
         all_shows (committed example_world)
           `prefix_of` all_shows (committed (scrape_and_process obs later
                                               example_world).1)).
Proof.
  assert (NoDup (row_id <$> all_shows (committed example_world))) as Hnd.
  { simpl. apply NoDup_singleton. }
  assert (AllShowsRow "1" example_show_a 5 ∈ all_shows (committed example_world))
    as Hrow.
  { simpl. left. }
  split_and!; [exact Hnd|exact Hrow|].
  exact (add_to_all_shows_idempotent example_scraped 9 example_world
           (AllShowsRow "1" example_show_a 5) Hnd Hrow).
Defined.

(** ** The fanout *)

Section fanout.
Implicit Types (ns : gmap string show_info) (guilds : list (list member)).
Implicit Types (bl : gmap Z (gset string)) (rows : list (Z * string)).

Lemma channel_requests_fmap ns :
  channel_requests ns
  = (λ item, ChannelSend None [channel_embed item.1 item.2]) <$> map_to_list ns.
Proof.
  unfold channel_requests. induction (map_to_list ns) as [|item l IH]; [done|].
  simpl. by f_equal.
Qed.

Lemma users_to_notify_guild (g : list member) (acc : gset Z) u :
  u ∈ foldl (λ acc m, if bot m then acc else acc ∪ {[member_id m]}) acc g
  ↔ u ∈ acc ∨ ∃ m, m ∈ g ∧ bot m = false ∧ member_id m = u.
Proof.
  revert acc. induction g as [|m g IH]; intros acc; simpl.
  - split; [by left|]. intros [?|(m & Hm & _)]; [done|].
    by apply elem_of_nil in Hm.
  - rewrite IH. split.
    + intros [Hacc|(m' & Hm' & Hbot & Hid)].
      * destruct (bot m) eqn:Hbot; [by left|].
        apply elem_of_union in Hacc as [?| ->%elem_of_singleton]; [by left|].
        right. exists m. split_and!; [left|done..].
      * right. exists m'. split_and!; [by right|done..].
    + intros [Hacc|(m' & Hm' & Hbot & Hid)].
      * left. destruct (bot m); [done|]. apply elem_of_union. by left.
      * apply elem_of_cons in Hm' as [->|Hm'].
        -- left. rewrite Hbot. apply elem_of_union. right.
           by apply elem_of_singleton.
        -- right. by exists m'.
Qed.

(** The users to notify are the members of some guild that are not bots. *)
Lemma elem_of_users_to_notify guilds u :
  u ∈ users_to_notify guilds
  ↔ ∃ g m, g ∈ guilds ∧ m ∈ g ∧ bot m = false ∧ member_id m = u.
Proof.
  unfold users_to_notify.
  assert (∀ acc : gset Z,
    u ∈ foldl (λ acc guild,
                 foldl (λ acc m, if bot m then acc else acc ∪ {[member_id m]})
                       acc guild) acc guilds
    ↔ u ∈ acc ∨ ∃ g m, g ∈ guilds ∧ m ∈ g ∧ bot m = false ∧ member_id m = u)
    as Hacc.
  { induction guilds as [|g guilds IH]; intros acc; simpl.
    - split; [by left|]. intros [?|(g & m & Hg & _)]; [done|].
      by apply elem_of_nil in Hg.
    - rewrite IH, users_to_notify_guild. split.
      + intros [[?|(m & ? & ? & ?)]|(g' & m & ? & ? & ? & ?)].
        * by left.
        * right. exists g, m. split_and!; [left|done..].
        * right. exists g', m. split_and!; [by right|done..].
      + intros [?|(g' & m & Hg' & ? & ? & ?)]; [by left; left|].
        apply elem_of_cons in Hg' as [->|Hg'].
        * left. right. by exists m.
        * right. by exists g', m. }
  rewrite Hacc. split; [|by right]. intros [Hin|?]; [|done].
  by apply not_elem_of_empty in Hin.
Qed.

Lemma group_blacklists_acc rows bl u s :
  s ∈ default ∅ (foldl (λ acc row,
           let acc :=
             match acc !! row.1 with
             | None => <[row.1 := ∅]> acc
             | Some _ => acc
             end in
           <[row.1 := default ∅ (acc !! row.1) ∪ {[row.2]}]> acc) bl rows !! u)
  ↔ s ∈ default ∅ (bl !! u) ∨ (u, s) ∈ rows.
Proof.
  revert bl. induction rows as [|[u' s'] rows IH]; intros bl; simpl.
  - split; [by left|]. intros [?|Hin]; [done|]. by apply elem_of_nil in Hin.
  - rewrite IH. clear IH. rewrite elem_of_cons.
    destruct (decide (u = u')) as [->|Hne].
    + rewrite lookup_insert_eq. simpl.
      destruct (bl !! u') as [X|] eqn:Hbl; simpl.
      * rewrite Hbl. simpl. rewrite elem_of_union, elem_of_singleton.
        naive_solver.
      * rewrite lookup_insert_eq. simpl.
        rewrite elem_of_union, elem_of_singleton. naive_solver.
    + rewrite lookup_insert_ne by done.
      destruct (bl !! u') as [X|] eqn:Hbl.
      * naive_solver.
      * rewrite lookup_insert_ne by done. naive_solver.
Qed.

(** The set grouped under a user holds the show ids of the user's rows. *)
Lemma elem_of_group_blacklists rows u s :
  s ∈ default ∅ (group_blacklists rows !! u) ↔ (u, s) ∈ rows.
Proof.
  unfold group_blacklists. rewrite group_blacklists_acc, lookup_empty. simpl.
  split; [|by right]. intros [Hin|?]; [|done].
  by apply not_elem_of_empty in Hin.
Qed.

Lemma elem_of_select_blacklists (ids : list string) (d : database) u s :
  (u, s) ∈ select_blacklists ids d ↔ s ∈ ids ∧ (u, s) ∈ user_blacklists d.
Proof. unfold select_blacklists. by rewrite list_elem_of_filter. Qed.

(** The direct messages of one user: one per new show outside the set
    looked up for the user. *)
Lemma elem_of_user_requests ns bl u r :
  r ∈ user_requests ns bl u
  ↔ ∃ id info, ns !! id = Some info ∧ (id ∉ default ∅ (bl !! u))
      ∧ r = UserSend u (dm_embed id info) (Some (Button id (name info) u false)).
Proof.
  unfold user_requests, send_user_dm. case_decide as Hempty.
  - split; [by intros ?%elem_of_nil|].
    intros (id & info & Hid & Hbl & _).
    assert (filter (λ item : string * show_info, item.1 ∉ default ∅ (bl !! u)) ns
              !! id = Some info) as Hf by (by apply map_lookup_filter_Some).
    rewrite Hempty in Hf. by rewrite lookup_empty in Hf.
  - rewrite list_elem_of_bind. split.
    + intros ([id info] & ->%list_elem_of_singleton & Hin).
      apply elem_of_map_to_list, map_lookup_filter_Some in Hin as [Hns Hbl].
      by exists id, info.
    + intros (id & info & Hns & Hbl & ->). exists (id, info). split; [left|].
      by apply elem_of_map_to_list, map_lookup_filter_Some.
Qed.

Lemma not_elem_of_channel_requests ns u e v :
  UserSend u e v ∉ channel_requests ns.
Proof.
  rewrite channel_requests_fmap. by intros (item & ? & _)%list_elem_of_fmap.
Qed.
End fanout.

Section notify.
Implicit Types (ns : gmap string show_info) (guilds : list (list member)).

Lemma notify_empty read guilds w :
  notify_users_about_new_shows read guilds ∅ w = ([], true).
Proof. done. Qed.

Lemma notify_connection_raises guilds ns w :
  ns ≠ ∅ →
  notify_users_about_new_shows ConnectionRaises guilds ns w
  = (channel_requests ns, false).
Proof. intros Hne. unfold notify_users_about_new_shows. by rewrite decide_False. Qed.

Lemma notify_connected read guilds ns w :
  ns ≠ ∅ → read ≠ ConnectionRaises →
  notify_users_about_new_shows read guilds ns w
  = (channel_requests ns
       ++ (elements (users_to_notify guilds)
             ≫= user_requests ns (fetched_blacklists read ns w)), true).
Proof.
  intros Hne Hread. unfold notify_users_about_new_shows.
  rewrite decide_False by done. by destruct read.
Qed.

(** Every request of the fanout is a channel message of the first loop,
    followed by the direct messages. *)
Lemma notify_split read guilds ns w :
  ∃ dms, (notify_users_about_new_shows read guilds ns w).1
         = channel_requests ns ++ dms
         ∧ Forall is_user_send dms.
Proof.
  destruct (decide (ns = ∅)) as [->|Hne].
  { exists []. by rewrite notify_empty. }
  destruct (decide (read = ConnectionRaises)) as [->|Hread].
  { exists []. rewrite notify_connection_raises by done.
    by rewrite (right_id_L [] (++)). }
  eexists. rewrite notify_connected by done. split; [done|].
  apply Forall_forall. intros r (u & Hr & _)%list_elem_of_bind.
  apply elem_of_user_requests in Hr as (id & info & _ & _ & ->). done.
Qed.

Lemma channel_requests_Forall ns : Forall is_channel_send (channel_requests ns).
Proof.
  rewrite channel_requests_fmap. apply Forall_forall.
  by intros r (item & -> & _)%list_elem_of_fmap.
Qed.

(** In a list of channel messages followed by direct messages, a channel
    message stands before every direct message. *)
Lemma channel_first (cs dms : list request) i j u e v c es :
  Forall is_channel_send cs → Forall is_user_send dms →
  (cs ++ dms) !! i = Some (UserSend u e v) →
  (cs ++ dms) !! j = Some (ChannelSend c es) →
  (j < i)%nat.
Proof.
  intros Hcs Hdms Hi Hj.
  destruct (decide (i < length cs)%nat) as [Hlt|Hge].
  { rewrite lookup_app_l in Hi by done.
    apply list_elem_of_lookup_2 in Hi.
    by apply (proj1 (Forall_forall _ _) Hcs) in Hi. }
  destruct (decide (j < length cs)%nat) as [Hlt|Hge']; [lia|].
  rewrite lookup_app_r in Hj by lia.
  apply list_elem_of_lookup_2 in Hj.
  by apply (proj1 (Forall_forall _ _) Hdms) in Hj.
Qed.

(** With the connection open, a user is written to about a new show
    exactly when the show is not in the set fetched for the user. *)
Lemma elem_of_notify_connected read guilds ns w r :
  ns ≠ ∅ → read ≠ ConnectionRaises → is_user_send r →
  r ∈ (notify_users_about_new_shows read guilds ns w).1
  ↔ ∃ u id info,
      u ∈ users_to_notify guilds ∧ ns !! id = Some info
      ∧ (id ∉ default ∅ (fetched_blacklists read ns w !! u))
      ∧ r = UserSend u (dm_embed id info) (Some (Button id (name info) u false)).
Proof.
  intros Hne Hread Hr. rewrite notify_connected by done. simpl.
  rewrite elem_of_app, list_elem_of_bind. split.
  - intros [Hch|(u & Hin & Hu)].
    + destruct r; [done|]. by apply not_elem_of_channel_requests in Hch.
    + apply elem_of_elements in Hu.
      apply elem_of_user_requests in Hin as (id & info & ? & ? & ->).
      by exists u, id, info.
  - intros (u & id & info & Hu & Hns & Hbl & ->). right. exists u.
    split; [|by apply elem_of_elements].
    apply elem_of_user_requests. by exists id, info.
Qed.

Lemma fetched_blacklists_returns ns w u id info :
  ns !! id = Some info →
  id ∉ default ∅ (fetched_blacklists QueryReturns ns w !! u)
  ↔ (u, id) ∉ user_blacklists (committed w).
Proof.
  intros Hns. simpl.
  rewrite elem_of_group_blacklists, elem_of_select_blacklists.
  assert (id ∈ (map_to_list ns).*1).
  { apply list_elem_of_fmap. exists (id, info). split; [done|].
    by apply elem_of_map_to_list. }
  naive_solver.
Qed.
End notify.

Section deliveries.
Implicit Types (ns : gmap string show_info) (guilds : list (list member)).


End deliveries.


Lemma example_new_shows_ne : example_new_shows ≠ ∅.
Proof. apply insert_non_empty. Qed.


(** The scenario of the specification: user 7 has blacklisted show 2, which
    is new; the channel gets show 2, user 8 gets it once although present in
    two guilds, user 7 and the bot 9 get nothing. *)
Example fanout_example :
  notify_users_about_new_shows QueryReturns example_guilds example_new_shows
    example_world
  = ([ChannelSend None [channel_embed "2" example_show_b];
      UserSend 8 (dm_embed "2" example_show_b)
        (Some (Button "2" "Show B" 8 false))], true).
Proof. by vm_compute. Qed.

(** C7. The requests of one fanout are the channel messages, one for every
    new show, followed by direct messages only, so that every channel
    message is sent before any direct message; the same holds for the
    requests of a whole run. *)
Theorem channel_before_direct_messages
    (read : blacklist_read) (guilds : list (list member))
    (ns : gmap string show_info) (w : world) :
  let sent := (notify_users_about_new_shows read guilds ns w).1 in
  (∃ dms,
     sent = ((λ item, ChannelSend None [channel_embed item.1 item.2])
               <$> map_to_list ns) ++ dms
     ∧ Forall is_user_send dms)
  ∧ (∀ i j u e v c es,
       sent !! i = Some (UserSend u e v) →
       sent !! j = Some (ChannelSend c es) →
       (j < i)%nat)
  ∧ (∀ obs now i j u e v c es,
       (run obs now read guilds w).2 !! i = Some (UserSend u e v) →
       (run obs now read guilds w).2 !! j = Some (ChannelSend c es) →
       (j < i)%nat).
Proof.
  intros sent.
  assert (∀ w1 ns1 i j u e v c es,
    (notify_users_about_new_shows read guilds ns1 w1).1 !! i = Some (UserSend u e v) →
    (notify_users_about_new_shows read guilds ns1 w1).1 !! j = Some (ChannelSend c es) →
    (j < i)%nat) as Hord.
  { intros w1 ns1 i j u e v c es.
    destruct (notify_split read guilds ns1 w1) as (dms & -> & Hdms).
    apply channel_first; [apply channel_requests_Forall|done]. }
  split_and!.
  - unfold sent. rewrite <-channel_requests_fmap. apply notify_split.
  - apply Hord.
  - intros obs now i j u e v c es. unfold run.
    destruct (scrape_and_process obs now w) as [w' posted] eqn:Hrun.
    assert (posted = [] ∨ (∃ t, posted = [SendDiscordMessage t])
            ∨ ∃ ns1, posted = [NotifyUsersAboutNewShows ns1]) as Hposted.
    { unfold scrape_and_process in Hrun.
      destruct obs as [err| |scraped].
      - injection Hrun as _ <-. right. left. eauto.
      - injection Hrun as _ <-. right. left. eauto.
      - destruct (new_shows scraped _) as [k|ns1].
        + injection Hrun as _ <-. right. left. eauto.
        + case_decide; injection Hrun as _ <-; [by left|]. right. right. eauto. }
    destruct Hposted as [->|[[t ->]|[ns1 ->]]]; simpl.
    + intros Hi. by rewrite lookup_nil in Hi.
    + intros Hi. by destruct i as [|[|i]].
    + rewrite (right_id_L [] (++)). apply Hord.
Qed.

(** C8, as stated, fails when the read fails at the connection, which is
    opened before the [try]: the coroutine raises after the channel messages,
    and user 8, who is to be notified of the new show 2, is sent nothing. *)
Lemma blacklist_connection_failure_aborts :
  8%Z ∈ users_to_notify example_guilds
  ∧ example_new_shows !! "2" = Some example_show_b
  ∧ notify_users_about_new_shows ConnectionRaises example_guilds example_new_shows
      example_world
    = ([ChannelSend None [channel_embed "2" example_show_b]], false)
  ∧ UserSend 8 (dm_embed "2" example_show_b) (Some (Button "2" "Show B" 8 false))
      ∉ (notify_users_about_new_shows ConnectionRaises example_guilds
           example_new_shows example_world).1.
Proof.
  assert (notify_users_about_new_shows ConnectionRaises example_guilds
            example_new_shows example_world
          = ([ChannelSend None [channel_embed "2" example_show_b]], false)) as Hrun
    by (by vm_compute).
  split_and!.
  - apply elem_of_users_to_notify.
    exists [Member 8 false], (Member 8 false). split_and!; [|left|done..].
    right. left.
  - by vm_compute.
  - exact Hrun.
  - rewrite Hrun. simpl. by intros ?%list_elem_of_singleton.
Qed.

(** C8, amended.  When the connection is open and the query for the
    blacklists raises, the fanout returns normally and sends every user to
    notify a direct message for every new show: it sends what it would send
    if the table of blacklists were empty. *)
Theorem blacklist_query_failure_fails_open
    (guilds : list (list member)) (ns : gmap string show_info) (w : world) :
  let r := notify_users_about_new_shows QueryRaises guilds ns w in
  r.2 = true
  ∧ (∀ u id info,
       u ∈ users_to_notify guilds → ns !! id = Some info →
       UserSend u (dm_embed id info) (Some (Button id (name info) u false)) ∈ r.1)
  ∧ r = notify_users_about_new_shows QueryReturns guilds ns
          (commit w (set_user_blacklists [] (committed w))).
Proof.
  destruct (decide (ns = ∅)) as [->|Hne].
  { simpl. split_and!; [done| |done]. intros u id info _ Hns.
    by rewrite lookup_empty in Hns. }
  simpl. split_and!.
  - by rewrite notify_connected.
  - intros u id info Hu Hns.
    apply elem_of_notify_connected; [done..|].
    exists u, id, info. split_and!; [done..| |done].
    simpl. rewrite lookup_empty. simpl. apply not_elem_of_empty.
  - by rewrite !notify_connected.
Qed.

(** ** Failed observations *)

(** C5, as stated, fails.  A page that keeps the [event-info] div and
    whose only panel has lost its heading is an observation of no shows: the
    run empties the snapshot, which held show 1, and sends nothing.  And
    when the browser cannot be started, which happens before the [try], the
    exception leaves [scrape_and_process] and no notice is posted. *)
Lemma failed_observation_without_notice :
  observe_page (Some [Panel None [Some "/resources/media/a.jpg"]]) = Scraped ∅
  ∧ shows (committed example_world) = [("1", example_show_a)]
  ∧ shows (committed
             (run (observe_page (Some [Panel None [Some "/resources/media/a.jpg"]]))
                9 QueryReturns example_guilds example_world).1) = []
  ∧ (run (observe_page (Some [Panel None [Some "/resources/media/a.jpg"]]))
       9 QueryReturns example_guilds example_world).2 = []
  ∧ scrape_and_process_from_start (ChromeRaises "Message: unknown error") 9
      example_world
    = (initialize_database example_world, [], Some "Message: unknown error").
Proof. split_and!; by vm_compute. Qed.

(** C5, amended.  When the observation raises inside the [try] or the page
    has no [event-info] div, the run commits no database state other than the
    one it found, so the snapshot and the catalog are as before; it sends
    exactly one message, to the channel, which carries the error text or the
    warning, and it sends no direct message. *)
Theorem failed_observation_run
    (obs : observation) (now : Z) (read : blacklist_read)
    (guilds : list (list member)) (w : world) :
  observation_failed obs →
  let r := run obs now read guilds w in
  committed r.1 = committed w
  ∧ (∀ d, d ∈ history r.1 → d ∈ history w ∨ d = committed w)
  ∧ (∃ text, r.2 = [ChannelSend (Some text) []]
             ∧ match obs with
               | Raised e => text = error_message e
               | _ => text = warning_message
               end)
  ∧ (∀ u e v, UserSend u e v ∉ r.2).
Proof.
  intros Hfail.
  assert (∀ d, d ∈ history (initialize_database w) →
               d ∈ history w ∨ d = committed w) as Hhist.
  { intros d. simpl. rewrite !elem_of_app, !list_elem_of_singleton. naive_solver. }
  destruct obs as [err| |scraped]; [| |done]; simpl.
  - split_and!; [done|exact Hhist|by eexists|].
    intros u e v ?%list_elem_of_singleton. done.
  - split_and!; [done|exact Hhist|by eexists|].
    intros u e v ?%list_elem_of_singleton. done.
Qed.

Lemma failed_observation_run_witness :
  observation_failed (Raised "Message: timeout")
  ∧ let r := run (Raised "Message: timeout") 9 QueryReturns example_guilds
               example_world in
    committed r.1 = committed example_world
    ∧ (∀ d, d ∈ history r.1 →
            d ∈ history example_world ∨ d = committed example_world)
    ∧ (∃ text, r.2 = [ChannelSend (Some text) []]
               ∧ text = error_message "Message: timeout")
    ∧ (∀ u e v, UserSend u e v ∉ r.2).
Proof.
  split; [exact I|].
  exact (failed_observation_run (Raised "Message: timeout") 9 QueryReturns
           example_guilds example_world I).
Defined.

(** ** The blacklist button and the removal command *)

Section blacklists.
Implicit Types (rows : list (Z * string)) (row : Z * string).

Lemma insert_user_blacklist_present row rows :
  row ∈ rows → insert_user_blacklist row rows = rows.
Proof. intros Hin. unfold insert_user_blacklist. by rewrite decide_True. Qed.

Lemma elem_of_insert_user_blacklist row rows r :
  r ∈ insert_user_blacklist row rows ↔ r = row ∨ r ∈ rows.
Proof.
  unfold insert_user_blacklist. case_decide.
  - naive_solver.
  - rewrite elem_of_app, list_elem_of_singleton. naive_solver.
Qed.

(** The primary key of [user_blacklists] is kept, and the inserted pair is
    there once. *)
Lemma insert_user_blacklist_once row rows :
  NoDup rows →
  NoDup (insert_user_blacklist row rows)
  ∧ filter (λ r, r = row) (insert_user_blacklist row rows) = [row].
Proof.
  intros Hnd.
  assert (NoDup (insert_user_blacklist row rows)) as Hnd'.
  { unfold insert_user_blacklist. case_decide; [done|].
    apply NoDup_app. split_and!; [done| |apply NoDup_singleton].
    by intros r Hr ->%list_elem_of_singleton. }
  split; [done|].
  apply (filter_key_NoDup id); [by rewrite list_fmap_id|].
  apply elem_of_insert_user_blacklist. by left.
Qed.

Lemma delete_user_blacklist_filter row rows :
  delete_user_blacklist row rows = filter (λ r, r ≠ row) rows.
Proof.
  unfold delete_user_blacklist. apply list_filter_iff.
  intros [u s]. destruct row as [u' s']. simpl. naive_solver.
Qed.

Lemma filter_all {A} (P : A → Prop) `{∀ x, Decision (P x)} (l : list A) :
  (∀ y, y ∈ l → P y) → filter P l = l.
Proof.
  induction l as [|y l IH]; intros Hall; [done|].
  rewrite filter_cons_True by (apply Hall; left).
  f_equal. apply IH. intros z Hz. apply Hall. by right.
Qed.

(** [fetchone] finds a row as soon as the id is in the table. *)
Lemma select_name_present (id : string) (table : list (string * show_info)) :
  id ∈ table.*1 →
  ∃ info, (id, info) ∈ table ∧ select_name id table = Some (name info).
Proof.
  unfold select_name. induction table as [|[id' info'] table IH]; intros Hin.
  - by apply elem_of_nil in Hin.
  - destruct (decide (id' = id)) as [->|Hne].
    + exists info'. split; [left|]. by rewrite filter_cons_True.
    + simpl in Hin. apply elem_of_cons in Hin as [?|Hin]; [done|].
      destruct (IH Hin) as (info & ? & ?). exists info. split; [by right|].
      by rewrite filter_cons_False.
Qed.
End blacklists.

(** C9. An activation by anyone but the user the button was made for is
    answered with the private notice and changes neither the database nor
    the button.  An activation by that user leaves exactly one row for the
    pair of the user and the show, and every other row as it was; a pair
    that is present is not inserted again.  The user gets the private
    confirmation, and the button is disabled and the message edited to show
    it.  A further activation leaves the database and the button as they
    are. *)
Theorem blacklist_button_callback
    (self : BlacklistButton) (interaction_user : Z) (w : world) :
  NoDup (user_blacklists (committed w)) →
  let r := callback self interaction_user w in
  let self' := r.1.1 in
  let w' := r.1.2 in
  let pair := (interaction_user, show_id self) in
  (interaction_user ≠ user_id self →
     self' = self ∧ w' = w
     ∧ r.2 = [Defer true; FollowupSend "This button is not for you!" true])
  ∧ (interaction_user = user_id self →
     filter (λ row, row = pair) (user_blacklists (committed w')) = [pair]
     ∧ (∀ row, row ≠ pair →
          row ∈ user_blacklists (committed w') ↔ row ∈ user_blacklists (committed w))
     ∧ (pair ∈ user_blacklists (committed w) →
          user_blacklists (committed w') = user_blacklists (committed w))
     ∧ shows (committed w') = shows (committed w)
     ∧ all_shows (committed w') = all_shows (committed w)
     ∧ self' = Button (show_id self) (show_name self) (user_id self) true
     ∧ r.2 = [Defer true; FollowupSend (added_message (show_name self)) true;
              MessageEdit self']
     ∧ (callback self' interaction_user w').1.1 = self'
     ∧ committed (callback self' interaction_user w').1.2 = committed w').
Proof.
  intros Hnd. unfold callback. simpl. split.
  - intros Hne. by rewrite decide_True.
  - intros Heq. rewrite !decide_False by (by intros ?). simpl.
    destruct (insert_user_blacklist_once (interaction_user, show_id self) _ Hnd)
      as [_ Honce].
    split_and!; try done.
    + intros row Hrow. rewrite elem_of_insert_user_blacklist. naive_solver.
    + apply insert_user_blacklist_present.
    + unfold set_user_blacklists. simpl. f_equal.
      apply insert_user_blacklist_present, elem_of_insert_user_blacklist.
      by left.
Qed.

Lemma blacklist_button_callback_witness :
  NoDup (user_blacklists (committed example_world))
  ∧ let r := callback (Button "2" "Show B" 8 false) 8 example_world in
    user_blacklists (committed r.1.2) = [(7%Z, "2"); (8%Z, "2")]
    ∧ filter (λ row, row = (8%Z, "2")) (user_blacklists (committed r.1.2))
        = [(8%Z, "2")]
    ∧ r.1.1 = Button "2" "Show B" 8 true
    ∧ r.2 = [Defer true; FollowupSend (added_message "Show B") true;
             MessageEdit r.1.1]
    ∧ committed (callback r.1.1 8 r.1.2).1.2 = committed r.1.2.
Proof.
  assert (NoDup (user_blacklists (committed example_world))) as Hnd.
  { simpl. apply NoDup_singleton. }
  split; [exact Hnd|].
  destruct (blacklist_button_callback (Button "2" "Show B" 8 false) 8
              example_world Hnd) as [_ Hok].
  destruct (Hok eq_refl) as (Hone & _ & _ & _ & _ & Hself & Hreplies & _ & Hagain).
  split_and!; [reflexivity|exact Hone|exact Hself|exact Hreplies|exact Hagain].
Defined.

(** C10. When the show id has a row in the [shows] table, [blacklist_remove]
    answers with the removal confirmation for the name in that table and
    leaves no row for the pair of the caller and the show, whether or not
    there was one; the other rows of [user_blacklists], those of other users
    among them, are as before, and so are the other tables. *)
Theorem blacklist_remove_unconditional (author : Z) (id : string) (w : world) :
  id ∈ (shows (committed w)).*1 →
  let r := blacklist_remove author id w in
  (∃ info, (id, info) ∈ shows (committed w)
           ∧ r.2 = [Respond (removed_message (name info)) true])
  ∧ ((author, id) ∉ user_blacklists (committed r.1))
  ∧ user_blacklists (committed r.1)
      = filter (λ row, row ≠ (author, id)) (user_blacklists (committed w))
  ∧ (∀ row, row ≠ (author, id) →
        row ∈ user_blacklists (committed r.1) ↔ row ∈ user_blacklists (committed w))
  ∧ ((author, id) ∉ user_blacklists (committed w) →
        user_blacklists (committed r.1) = user_blacklists (committed w))
  ∧ shows (committed r.1) = shows (committed w)
  ∧ all_shows (committed r.1) = all_shows (committed w).
Proof.
  intros Hin. destruct (select_name_present id _ Hin) as (info & Hrow & Hsel).
  unfold blacklist_remove. rewrite Hsel. simpl.
  rewrite delete_user_blacklist_filter.
  split_and!; try done.
  - by exists info.
  - rewrite list_elem_of_filter. naive_solver.
  - intros row Hrow'. rewrite list_elem_of_filter. naive_solver.
  - intros Hout. apply filter_all. intros row Hrow' ->. done.
Qed.

Lemma blacklist_remove_unconditional_witness :
  "1" ∈ (shows (committed example_world)).*1
  ∧ let r := blacklist_remove 8 "1" example_world in
    (∃ info, ("1", info) ∈ shows (committed example_world)
             ∧ r.2 = [Respond (removed_message (name info)) true])
    ∧ ((8%Z, "1") ∉ user_blacklists (committed r.1))
    ∧ user_blacklists (committed r.1)
        = filter (λ row, row ≠ (8%Z, "1")) (user_blacklists (committed example_world))
    ∧ (∀ row, row ≠ (8%Z, "1") →
          row ∈ user_blacklists (committed r.1)
          ↔ row ∈ user_blacklists (committed example_world))
    ∧ ((8%Z, "1") ∉ user_blacklists (committed example_world) →
          user_blacklists (committed r.1) = user_blacklists (committed example_world))
    ∧ shows (committed r.1) = shows (committed example_world)
    ∧ all_shows (committed r.1) = all_shows (committed example_world).
Proof.
  assert ("1" ∈ (shows (committed example_world)).*1) as Hin.
  { simpl. left. }
  split; [exact Hin|].
  exact (blacklist_remove_unconditional 8 "1" example_world Hin).
Defined.

(** ** The scenario of the specification *)

(** The snapshot and the catalog hold show 1 and the observation returns
    shows 1 and 2: the snapshot becomes shows 1 and 2, the catalog gains show 2
    stamped with the time of the run and keeps the date of show 1, the channel
    gets show 2 only, and so does user 8; user 7 has blacklisted show 2. *)
Example run_example :
  let r := run (Scraped example_scraped) 9 QueryReturns example_guilds
             example_world in
  committed r.1
  = {| shows := [("1", example_show_a); ("2", example_show_b)];
       all_shows := [AllShowsRow "1" example_show_a 5;
                     AllShowsRow "2" example_show_b 9];
       user_blacklists := [(7%Z, "2")] |}
  ∧ r.2 = [ChannelSend None [channel_embed "2" example_show_b];
           UserSend 8 (dm_embed "2" example_show_b)
             (Some (Button "2" "Show B" 8 false))].
Proof. by vm_compute. Qed.

(** * Further properties of the code *)

(** ** The blacklist commands *)

Section commands.
Implicit Types (rows : list (Z * string)) (w : world) (author : Z) (id : string).

Lemma select_name_absent id (table : list (string * show_info)) :
  id ∉ table.*1 → select_name id table = None.
Proof.
  intros Hout. unfold select_name. rewrite filter_none; [done|].
  intros [id' info] Hin Heq. simpl in Heq. subst id'.
  apply Hout. by apply (list_elem_of_fmap_2 fst) in Hin.
Qed.

Lemma select_all_shows_name_present id (table : list all_shows_row) :
  id ∈ row_id <$> table →
  ∃ row, row ∈ table ∧ row_id row = id
         ∧ select_all_shows_name id table = Some (name (row_info row)).
Proof.
  unfold select_all_shows_name. induction table as [|row table IH]; intros Hin.
  - by apply elem_of_nil in Hin.
  - destruct (decide (row_id row = id)) as [Heq|Hne].
    + exists row. split_and!; [left|done|]. by rewrite filter_cons_True.
    + simpl in Hin. apply elem_of_cons in Hin as [?|Hin]; [done|].
      destruct (IH Hin) as (row' & ? & ? & ?). exists row'.
      split_and!; [by right|done|]. by rewrite filter_cons_False.
Qed.

Lemma select_all_shows_name_absent id (table : list all_shows_row) :
  id ∉ row_id <$> table → select_all_shows_name id table = None.
Proof.
  intros Hout. unfold select_all_shows_name. rewrite filter_none; [done|].
  intros row Hin Heq. apply Hout. rewrite <-Heq. by apply list_elem_of_fmap_2.
Qed.

(** The blacklists after a [blacklist_add] that finds the show. *)
Lemma blacklist_add_found author id w :
  id ∈ row_id <$> all_shows (committed w) →
  ∃ row, row ∈ all_shows (committed w) ∧ row_id row = id
    ∧ blacklist_add author id w
      = (commit w (set_user_blacklists
                     (insert_user_blacklist (author, id)
                        (user_blacklists (committed w))) (committed w)),
         [Respond (added_message (name (row_info row))) true]).
Proof.
  intros Hin. destruct (select_all_shows_name_present id _ Hin)
    as (row & Hrow & Hid & Hsel).
  exists row. split_and!; [done..|]. unfold blacklist_add. by rewrite Hsel.
Qed.

(** The blacklists after a [blacklist_remove] that finds the show. *)
Lemma blacklist_remove_found author id w :
  id ∈ (shows (committed w)).*1 →
  ∃ info, (id, info) ∈ shows (committed w)
    ∧ blacklist_remove author id w
      = (commit w (set_user_blacklists
                     (filter (λ row, row ≠ (author, id))
                        (user_blacklists (committed w))) (committed w)),
         [Respond (removed_message (name info)) true]).
Proof.
  intros Hin. destruct (select_name_present id _ Hin) as (info & Hrow & Hsel).
  exists info. split; [done|]. unfold blacklist_remove.
  by rewrite Hsel, delete_user_blacklist_filter.
Qed.

Lemma filter_ne_snoc rows (pair : Z * string) :
  pair ∉ rows → filter (λ row, row ≠ pair) (rows ++ [pair]) = rows.
Proof.
  intros Hout. rewrite filter_app, filter_cons_False by (by intros ?).
  rewrite filter_nil, (right_id_L [] (++)).
  apply filter_all. intros row Hrow ->. done.
Qed.

(** The names that [blacklist_list] shows: those of the rows of [shows]
    whose id the caller has blacklisted. *)
Lemma elem_of_joined_names author (d : database) (n : string) :
  n ∈ joined_names author d
  ↔ ∃ id info, (author, id) ∈ user_blacklists d ∧ (id, info) ∈ shows d
               ∧ name info = n.
Proof.
  unfold joined_names. rewrite list_elem_of_bind. split.
  - intros ([u id] & Hn & Hentry).
    apply list_elem_of_filter in Hentry as [Hu Hentry]. simpl in Hu. subst u.
    apply list_elem_of_bind in Hn as ([id' info] & Hn & Hrow).
    apply list_elem_of_singleton in Hn.
    apply list_elem_of_filter in Hrow as [Hid Hrow]. simpl in *. subst id'.
    by exists id, info.
  - intros (id & info & Hentry & Hrow & <-). exists (author, id). split.
    + apply list_elem_of_bind. exists (id, info). split; [left|].
      by apply list_elem_of_filter.
    + by apply list_elem_of_filter.
Qed.
End commands.

(** X1. [blacklist_add] of a show that is in [all_shows] answers with the
    confirmation for the name in that table and leaves exactly one row for
    the pair of the caller and the show; every other row and the other
    tables are as before, and a pair that is present is not inserted again,
    so that adding twice is adding once. *)
Theorem blacklist_add_idempotent (author : Z) (id : string) (w : world) :
  NoDup (user_blacklists (committed w)) →
  id ∈ row_id <$> all_shows (committed w) →
  let r := blacklist_add author id w in
  (∃ row, row ∈ all_shows (committed w) ∧ row_id row = id
          ∧ r.2 = [Respond (added_message (name (row_info row))) true])
  ∧ filter (λ row, row = (author, id)) (user_blacklists (committed r.1))
      = [(author, id)]
  ∧ NoDup (user_blacklists (committed r.1))
  ∧ (∀ row, row ≠ (author, id) →
        row ∈ user_blacklists (committed r.1) ↔ row ∈ user_blacklists (committed w))
  ∧ shows (committed r.1) = shows (committed w)
  ∧ all_shows (committed r.1) = all_shows (committed w)
  ∧ committed (blacklist_add author id r.1).1 = committed r.1.
Proof.
  intros Hnd Hin. cbv zeta.
  destruct (blacklist_add_found author id w Hin) as (row & Hrow & Hid & Hadd).
  assert (id ∈ row_id <$> all_shows (committed (blacklist_add author id w).1))
    as Hin' by (by rewrite Hadd).
  destruct (blacklist_add_found author id _ Hin') as (row' & _ & _ & ->).
  rewrite Hadd. simpl.
  destruct (insert_user_blacklist_once (author, id) _ Hnd) as [Hnd' Honce].
  split_and!; try done.
  - by exists row.
  - intros r Hr. rewrite elem_of_insert_user_blacklist. naive_solver.
  - unfold set_user_blacklists. simpl. f_equal.
    apply insert_user_blacklist_present, elem_of_insert_user_blacklist. by left.
Qed.

Lemma blacklist_add_idempotent_witness :
  NoDup (user_blacklists (committed example_world))
  ∧ "1" ∈ row_id <$> all_shows (committed example_world)
  ∧ let r := blacklist_add 8 "1" example_world in
    user_blacklists (committed r.1) = [(7%Z, "2"); (8%Z, "1")]
    ∧ r.2 = [Respond (added_message "Show A") true]
    ∧ committed (blacklist_add 8 "1" r.1).1 = committed r.1.
Proof.
  assert (NoDup (user_blacklists (committed example_world))) as Hnd.
  { simpl. apply NoDup_singleton. }
  assert ("1" ∈ row_id <$> all_shows (committed example_world)) as Hin.
  { simpl. left. }
  split_and!; [exact Hnd|exact Hin|].
  destruct (blacklist_add_idempotent 8 "1" example_world Hnd Hin)
    as (_ & _ & _ & _ & _ & _ & Hagain).
  split_and!; [reflexivity|reflexivity|exact Hagain].
Defined.

(** X2. A command whose show id is not in its table answers with its
    not-found message and commits nothing: [blacklist_add] looks in
    [all_shows], [blacklist_remove] in [shows].  So a [blacklist_remove] for
    a show that is not in the snapshot leaves the caller's row for it in
    [user_blacklists]. *)
Theorem blacklist_commands_not_found (author : Z) (id : string) (w : world) :
  (id ∉ row_id <$> all_shows (committed w) →
     blacklist_add author id w
     = (w, [Respond "Show ID not found in the all shows list. Please check the ID and try again."
              true]))
  ∧ (id ∉ (shows (committed w)).*1 →
     blacklist_remove author id w
     = (w, [Respond "Show ID not found. Please check the ID and try again." true]))
  ∧ (id ∉ (shows (committed w)).*1 →
     (author, id) ∈ user_blacklists (committed w) →
     (author, id) ∈ user_blacklists (committed (blacklist_remove author id w).1)).
Proof.
  split_and!.
  - intros Hout. unfold blacklist_add.
    by rewrite select_all_shows_name_absent.
  - intros Hout. unfold blacklist_remove. by rewrite select_name_absent.
  - intros Hout Hin. unfold blacklist_remove. by rewrite select_name_absent.
Qed.

Lemma blacklist_commands_not_found_witness :
  ("2" ∉ (shows (committed example_world)).*1)
  ∧ (7%Z, "2") ∈ user_blacklists (committed example_world)
  ∧ (7%Z, "2") ∈ user_blacklists (committed (blacklist_remove 7 "2" example_world).1).
Proof.
  assert ("2" ∉ (shows (committed example_world)).*1) as Hout.
  { simpl. by intros ?%list_elem_of_singleton. }
  assert ((7%Z, "2") ∈ user_blacklists (committed example_world)) as Hin.
  { simpl. left. }
  split_and!; [exact Hout|exact Hin|].
  destruct (blacklist_commands_not_found 7 "2" example_world) as (_ & _ & Hkeep).
  exact (Hkeep Hout Hin).
Defined.

(** X3. For a show that is in both tables, [blacklist_remove] undoes
    [blacklist_add]: when the caller had no row for the show, the table of
    blacklists after adding and removing is the table before.  In the other
    order, removing and adding again gives the rows there were, the caller's
    row moved to the end. *)
Theorem blacklist_add_remove_round_trip (author : Z) (id : string) (w : world) :
  id ∈ row_id <$> all_shows (committed w) →
  id ∈ (shows (committed w)).*1 →
  ((author, id) ∉ user_blacklists (committed w) →
     committed (blacklist_remove author id (blacklist_add author id w).1).1
     = committed w)
  ∧ ((author, id) ∈ user_blacklists (committed w) →
     user_blacklists
       (committed (blacklist_add author id (blacklist_remove author id w).1).1)
     = filter (λ row, row ≠ (author, id)) (user_blacklists (committed w))
         ++ [(author, id)]).
Proof.
  intros Hcat Hsnap. split.
  - intros Hout.
    destruct (blacklist_add_found author id w Hcat) as (row & _ & _ & Hadd).
    assert (id ∈ (shows (committed (blacklist_add author id w).1)).*1) as Hsnap'
      by (by rewrite Hadd).
    destruct (blacklist_remove_found author id _ Hsnap') as (info & _ & ->).
    rewrite Hadd. simpl. unfold insert_user_blacklist.
    rewrite decide_False by done. rewrite filter_ne_snoc by done.
    by destruct (committed w).
  - intros Hin.
    destruct (blacklist_remove_found author id w Hsnap) as (info & _ & Hrem).
    assert (id ∈ row_id <$> all_shows (committed (blacklist_remove author id w).1))
      as Hcat' by (by rewrite Hrem).
    destruct (blacklist_add_found author id _ Hcat') as (row & _ & _ & ->).
    rewrite Hrem. simpl. unfold insert_user_blacklist.
    rewrite decide_False; [done|].
    rewrite list_elem_of_filter. naive_solver.
Qed.

Lemma blacklist_add_remove_round_trip_witness :
  "1" ∈ row_id <$> all_shows (committed example_world)
  ∧ "1" ∈ (shows (committed example_world)).*1
  ∧ ((8%Z, "1") ∉ user_blacklists (committed example_world))
  ∧ committed (blacklist_remove 8 "1" (blacklist_add 8 "1" example_world).1).1
    = committed example_world.
Proof.
  assert ("1" ∈ row_id <$> all_shows (committed example_world)) as Hcat.
  { simpl. left. }
  assert ("1" ∈ (shows (committed example_world)).*1) as Hsnap.
  { simpl. left. }
  assert ((8%Z, "1") ∉ user_blacklists (committed example_world)) as Hout.
  { simpl. by intros ?%list_elem_of_singleton. }
  split_and!; [exact Hcat|exact Hsnap|exact Hout|].
  destruct (blacklist_add_remove_round_trip 8 "1" example_world Hcat Hsnap)
    as [Hundo _].
  exact (Hundo Hout).
Defined.

Section listing_names.
Implicit Types (w : world) (author : Z) (id : string).

Lemma joined_names_nil author (d : database) :
  joined_names author d = []
  ↔ ∀ id, (author, id) ∈ user_blacklists d → id ∉ (shows d).*1.
Proof.
  split.
  - intros Hnil id Hentry ([id' info] & Hid & Hrow)%list_elem_of_fmap.
    simpl in Hid. subst id'.
    assert (name info ∈ joined_names author d) as Hin.
    { apply elem_of_joined_names. by exists id, info. }
    rewrite Hnil in Hin. by apply elem_of_nil in Hin.
  - intros Hall. destruct (joined_names author d) as [|n l] eqn:Hl;
      [done|].
    assert (n ∈ joined_names author d) as Hin by (rewrite Hl; left).
    apply elem_of_joined_names in Hin as (id & info & Hentry & Hrow & _).
    destruct (Hall id Hentry). by apply (list_elem_of_fmap_2 fst) in Hrow.
Qed.

(** Under the primary key of [shows], an id selects one row or none. *)
Lemma filter_id_length id (table : list (string * show_info)) :
  NoDup table.*1 →
  length (filter (λ row, row.1 = id) table)
  = if decide (id ∈ table.*1) then 1%nat else 0%nat.
Proof.
  intros Hnd. case_decide as Hin.
  - apply list_elem_of_fmap in Hin as ([id' info] & Hid & Hrow).
    simpl in Hid. subst id'.
    by rewrite (filter_key_NoDup fst table (id, info) Hnd Hrow).
  - rewrite filter_none; [done|]. intros row Hrow Heq. apply Hin.
    rewrite <-Heq. by apply list_elem_of_fmap_2.
Qed.

Lemma joined_names_length author (d : database) :
  NoDup (shows d).*1 →
  length (joined_names author d)
  = length (filter (λ row, row.1 = author ∧ row.2 ∈ (shows d).*1) (user_blacklists d)).
Proof.
  intros Hnd. unfold joined_names.
  induction (user_blacklists d) as [|[u id] rows IH]; [done|].
  destruct (decide (u = author)) as [->|Hne].
  - rewrite filter_cons_True by done. rewrite bind_cons, length_app, IH.
    assert (length ((filter (λ row : string * show_info, row.1 = (author, id).2)
                       (shows d)) ≫= λ row, [name row.2])
            = if decide (id ∈ (shows d).*1) then 1%nat else 0%nat) as ->.
    { rewrite <-(filter_id_length id (shows d) Hnd). simpl.
      induction (filter _ (shows d)) as [|row l IHl]; [done|].
      rewrite bind_cons. simpl. by rewrite IHl. }
    case_decide.
    + by rewrite (filter_cons_True (λ row, row.1 = author ∧ row.2 ∈ (shows d).*1)).
    + rewrite (filter_cons_False (λ row, row.1 = author ∧ row.2 ∈ (shows d).*1));
        [done|]. simpl. naive_solver.
  - rewrite filter_cons_False by done.
    rewrite (filter_cons_False (λ row, row.1 = author ∧ row.2 ∈ (shows d).*1));
      [done|]. simpl. naive_solver.
Qed.

(** A row for a show that is not in the snapshot adds no name. *)
Lemma joined_names_insert author (d : database) (pair : Z * string) :
  pair.2 ∉ (shows d).*1 →
  joined_names author
    (set_user_blacklists (insert_user_blacklist pair (user_blacklists d)) d)
  = joined_names author d.
Proof.
  intros Hout. unfold joined_names, insert_user_blacklist. simpl.
  case_decide; [done|]. rewrite filter_app, bind_app.
  destruct (decide (pair.1 = author)).
  - rewrite filter_cons_True by done. rewrite filter_nil, bind_cons. simpl.
    rewrite (filter_none (λ row : string * show_info, row.1 = pair.2) (shows d));
      [simpl; by rewrite !(right_id_L [] (++))|].
    intros row Hrow Heq. apply Hout. rewrite <-Heq. by apply list_elem_of_fmap_2.
  - rewrite filter_cons_False by done. rewrite filter_nil. simpl.
    by rewrite (right_id_L [] (++)).
Qed.
End listing_names.

(** X4. A show that is in [all_shows] and no longer in [shows] can be
    blacklisted and then neither listed nor removed by its owner:
    [blacklist_add] writes the row, the query of [blacklist_list] fetches
    what it fetched before, so that the command answers as before, and
    [blacklist_remove] answers that the show id is not found and leaves the
    row. *)
Theorem rotated_out_show_stays_blacklisted (author : Z) (id : string) (w : world) :
  id ∈ row_id <$> all_shows (committed w) →
  id ∉ (shows (committed w)).*1 →
  let w1 := (blacklist_add author id w).1 in
  (author, id) ∈ user_blacklists (committed w1)
  ∧ (∀ rows, fetched_names author (committed w1) rows
             ↔ fetched_names author (committed w) rows)
  ∧ blacklist_remove author id w1
    = (w1, [Respond "Show ID not found. Please check the ID and try again." true]).
Proof.
  intros Hcat Hout. cbv zeta.
  destruct (blacklist_add_found author id w Hcat) as (row & _ & _ & ->). simpl.
  split_and!.
  - apply elem_of_insert_user_blacklist. by left.
  - intros rows. unfold fetched_names.
    by rewrite (joined_names_insert author (committed w) (author, id)).
  - unfold blacklist_remove. simpl. by rewrite select_name_absent.
Qed.

Lemma rotated_out_show_stays_blacklisted_witness :
  "2" ∈ row_id <$> all_shows (committed example_rotated_world)
  ∧ ("2" ∉ (shows (committed example_rotated_world)).*1)
  ∧ let w1 := (blacklist_add 8 "2" example_rotated_world).1 in
    user_blacklists (committed w1) = [(8%Z, "2")]
    ∧ fetched_names 8 (committed w1) []
    ∧ blacklist_list [] = [Respond "Your blacklist is empty." true]
    ∧ blacklist_remove 8 "2" w1
      = (w1, [Respond "Show ID not found. Please check the ID and try again." true]).
Proof.
  assert ("2" ∈ row_id <$> all_shows (committed example_rotated_world)) as Hcat.
  { simpl. right. left. }
  assert ("2" ∉ (shows (committed example_rotated_world)).*1) as Hout.
  { simpl. by intros ?%list_elem_of_singleton. }
  split_and!; [exact Hcat|exact Hout|].
  destruct (rotated_out_show_stays_blacklisted 8 "2" example_rotated_world Hcat Hout)
    as (_ & Hlist & Hrem).
  split_and!; [reflexivity| |reflexivity|exact Hrem].
  apply Hlist. unfold fetched_names. simpl. reflexivity.
Defined.

(** X5. [blacklist_list] answers with one text, whatever the order in which
    the names are fetched.  It says that the blacklist is empty exactly when
    no show blacklisted by the caller is in [shows], whatever rows the caller
    has for other shows; otherwise it is the heading followed by one bulleted
    line per fetched name, in the order fetched.  The names are those of the
    rows of [shows] whose id the caller has blacklisted, one per blacklisted
    show of the snapshot when ids in [shows] are unique. *)
Theorem blacklist_list_shows_snapshot_names
    (author : Z) (w : world) (rows : list string) :
  fetched_names author (committed w) rows →
  (∀ n, n ∈ rows
        ↔ ∃ id info, (author, id) ∈ user_blacklists (committed w)
                     ∧ (id, info) ∈ shows (committed w) ∧ name info = n)
  ∧ (blacklist_list rows = [Respond "Your blacklist is empty." true]
     ↔ ∀ id, (author, id) ∈ user_blacklists (committed w) →
             id ∉ (shows (committed w)).*1)
  ∧ (rows ≠ [] →
     blacklist_list rows
     = [Respond ("Your blacklisted shows:" +:+ newline
                   +:+ String.concat newline (bullet_line <$> rows)) true])
  ∧ (NoDup (shows (committed w)).*1 →
     length rows
     = length (filter (λ row, row.1 = author ∧ row.2 ∈ (shows (committed w)).*1)
                 (user_blacklists (committed w)))).
Proof.
  unfold fetched_names. intros Hrows. split_and!.
  - intros n. rewrite Hrows. apply elem_of_joined_names.
  - rewrite <-joined_names_nil. unfold blacklist_list. split.
    + case_decide as Hnil.
      * intros _. rewrite Hnil in Hrows. by apply Permutation_nil_l in Hrows.
      * intros Heq. by simplify_eq.
    + intros Hnil. rewrite Hnil in Hrows.
      apply Permutation_nil_r in Hrows as ->. done.
  - intros Hne. unfold blacklist_list. by rewrite decide_False.
  - intros Hnd. rewrite Hrows. by apply joined_names_length.
Qed.

Lemma blacklist_list_shows_snapshot_names_witness :
  fetched_names 8 (committed example_listing_world) ["Show A"; "Show B"]
  ∧ blacklist_list ["Show A"; "Show B"]
    = [Respond ("Your blacklisted shows:" +:+ newline
                  +:+ String.concat newline
                        (bullet_line <$> ["Show A"; "Show B"])) true]
  ∧ length ["Show A"; "Show B"]
    = length (filter (λ row, row.1 = 8%Z
                             ∧ row.2 ∈ (shows (committed example_listing_world)).*1)
                (user_blacklists (committed example_listing_world))).
Proof.
  assert (fetched_names 8 (committed example_listing_world) ["Show A"; "Show B"])
    as Hrows.
  { unfold fetched_names.
    change (joined_names 8 (committed example_listing_world))
      with ["Show B"; "Show A"].
    apply perm_swap. }
  assert (NoDup (shows (committed example_listing_world)).*1) as Hnd.
  { simpl. apply NoDup_cons_2; [by intros ?%list_elem_of_singleton|].
    apply NoDup_singleton. }
  split; [exact Hrows|].
  destruct (blacklist_list_shows_snapshot_names 8 example_listing_world _ Hrows)
    as (_ & _ & Htext & Hlen).
  split; [apply Htext; discriminate|exact (Hlen Hnd)].
Defined.

(** ** The pages of the listing commands *)

Section pages.
Variables (title continued : string) (colour : listing_colour).
Implicit Types (l : list (string * string * option string)).

Lemma listing_loop_invariant l :
  listing_invariant title continued colour l
    (foldl (listing_step continued colour) ([], ListingEmbed title colour [], 0) l).
Proof.
  induction l as [|row l IH] using rev_ind.
  - unfold listing_invariant. simpl. split_and!; try done; [lia|].
    by apply Forall_singleton.
  - rewrite foldl_snoc.
    destruct (foldl _ _ l) as [[embeds current] n].
    destruct IH as (Hn & Hle & Hpos & Hfull & Hcat & Htitles & Hcol).
    simpl in *. unfold listing_step, listing_invariant.
    destruct (decide (n = 25)) as [->|Hne]; simpl.
    + split_and!; try done; try lia.
      * apply Forall_app. split; [done|]. by apply Forall_singleton.
      * rewrite fmap_app, concat_app, fmap_app. simpl.
        by rewrite (right_id_L [] (++)), Hcat.
      * rewrite (fmap_app _ (embeds ++ [current])), Htitles, length_app. simpl.
        by rewrite Nat.add_1_r, replicate_S_end.
      * apply Forall_app. split; [done|]. by apply Forall_singleton.
    + split_and!; try done; try lia.
      * rewrite length_app. simpl. lia.
      * by rewrite fmap_app, (assoc_L (++)), Hcat.
      * by rewrite !fmap_app in *.
      * apply Forall_app in Hcol as [Hcol1 Hcol2]. apply Forall_app.
        split; [done|]. apply Forall_singleton.
        rewrite Forall_singleton in Hcol2. exact Hcol2.
Qed.

Lemma concat_length_25 (embeds : list listing_embed) :
  Forall (λ e, length (fields e) = 25) embeds →
  length (concat (fields <$> embeds)) = 25 * length embeds.
Proof.
  induction 1 as [|e embeds He _ IH]; [done|].
  change (length (fields e ++ concat (fields <$> embeds))
          = 25 * S (length embeds)).
  rewrite length_app, He, IH. lia.
Qed.

(** The pages in terms of the final state of the loop. *)
Lemma listing_embeds_state l :
  ∃ embeds current n,
    listing_invariant title continued colour l (embeds, current, n)
    ∧ listing_embeds title continued colour l
      = if decide (0 < n) then embeds ++ [current] else embeds.
Proof.
  pose proof (listing_loop_invariant l) as Hinv. unfold listing_embeds.
  destruct (foldl _ _ l) as [[embeds current] n]. by exists embeds, current, n.
Qed.
End pages.

Lemma listing_embeds_fields (title continued : string) (colour : listing_colour)
    (l : list (string * string * option string)) :
  let pages := listing_embeds title continued colour l in
  concat (fields <$> pages)
  = (λ row, (row.1.2 +:+ " (ID: " +:+ row.1.1 +:+ ")", zero_width_space, true)) <$> l
  ∧ Forall (λ e, listing_color e = colour) pages.
Proof.
  cbv zeta.
  destruct (listing_embeds_state title continued colour l)
    as (embeds & current & n & Hinv & ->).
  destruct Hinv as (Hn & _ & _ & _ & Hcat & _ & Hcol). simpl in *.
  case_decide as Hpos.
  - split; [|done]. rewrite fmap_app, concat_app. simpl.
    by rewrite (right_id_L [] (++)).
  - assert (fields current = []) as Hnil.
    { apply length_zero_iff_nil. lia. }
    rewrite Hnil, (right_id_L [] (++)) in Hcat. split; [done|].
    by apply Forall_app in Hcol as [? _].
Qed.

Lemma listing_embeds_sizes (title continued : string) (colour : listing_colour)
    (l : list (string * string * option string)) :
  let pages := listing_embeds title continued colour l in
  length pages = ((length l + 24) `div` 25)%nat
  ∧ Forall (λ e, 1 ≤ length (fields e) ≤ 25) pages
  ∧ (∀ i e, pages !! i = Some e → S i < length pages → length (fields e) = 25).
Proof.
  cbv zeta.
  destruct (listing_embeds_state title continued colour l)
    as (embeds & current & n & Hinv & ->).
  destruct Hinv as (Hn & Hle & Hpos & Hfull & Hcat & _ & _).
  simpl in Hn, Hle, Hpos, Hfull, Hcat.
  assert (25 * length embeds + n = length l) as Hlen.
  { rewrite <-(length_fmap listing_field l), <-Hcat, length_app.
    rewrite concat_length_25 by done. lia. }
  assert (Forall (λ e, 1 ≤ length (fields e) ≤ 25) embeds) as Hfull'.
  { eapply Forall_impl; [exact Hfull|]. simpl. intros e He. lia. }
  case_decide as Hn0.
  - split_and!.
    + rewrite length_app. change (length [current]) with 1%nat.
      apply (Nat.div_unique _ _ _ (n - 1)); lia.
    + apply Forall_app. split; [done|]. apply Forall_singleton. lia.
    + intros i e Hi Hlt. rewrite length_app in Hlt. simpl in Hlt.
      rewrite lookup_app_l in Hi by lia.
      apply list_elem_of_lookup_2 in Hi.
      by apply (proj1 (Forall_forall _ _) Hfull) in Hi.
  - split_and!.
    + apply (Nat.div_unique _ _ _ 24); lia.
    + done.
    + intros i e Hi _. apply list_elem_of_lookup_2 in Hi.
      by apply (proj1 (Forall_forall _ _) Hfull) in Hi.
Qed.

(** X6. The pages of a listing keep the fetched rows: read page after page,
    their fields are the labels of the rows, in the order fetched, none lost
    and none repeated, each with the zero-width space as value; and every
    page has the colour of the command. *)
Theorem listing_pages_keep_rows (title continued : string) (colour : listing_colour)
    (l : list (string * string * option string)) :
  let pages := listing_embeds title continued colour l in
  concat (fields <$> pages)
  = (λ row, (row.1.2 +:+ " (ID: " +:+ row.1.1 +:+ ")", zero_width_space, true)) <$> l
  ∧ Forall (λ e, listing_color e = colour) pages.
Proof. apply listing_embeds_fields. Qed.

(** X7. A listing of n rows has the n rows on ceil(n / 25) pages: every page
    has at least one and at most 25 fields, and every page but the last has
    25. *)
Theorem listing_pages_sizes (title continued : string) (colour : listing_colour)
    (l : list (string * string * option string)) :
  let pages := listing_embeds title continued colour l in
  length pages = ((length l + 24) `div` 25)%nat
  ∧ Forall (λ e, 1 ≤ length (fields e) ≤ 25) pages
  ∧ (∀ i e, pages !! i = Some e → S i < length pages → length (fields e) = 25).
Proof. apply listing_embeds_sizes. Qed.

(** X8. The first page of a listing has the title of the command and every
    later page the title of the continuation. *)
Theorem listing_pages_titles (title continued : string) (colour : listing_colour)
    (l : list (string * string * option string)) :
  ∀ i e,
    listing_embeds title continued colour l !! i = Some e →
    listing_title e = if decide (i = 0%nat) then title else continued.
Proof.
  intros i e.
  destruct (listing_embeds_state title continued colour l)
    as (embeds & current & n & Hinv & ->).
  destruct Hinv as (_ & _ & _ & _ & _ & Htitles & _). simpl in *.
  intros Hi.
  assert ((embeds ++ [current]) !! i = Some e) as Hi'.
  { case_decide; [done|]. by apply lookup_app_l_Some. }
  apply (f_equal (fmap listing_title)) in Hi'.
  rewrite <-list_lookup_fmap, Htitles in Hi'. simpl in Hi'.
  destruct i as [|i]; simpl in Hi'; [by simplify_eq|].
  apply lookup_replicate in Hi' as [Heq _]. by simplify_eq.
Qed.

Lemma listing_pages_titles_witness :
  listing_embeds "All Shows History" "All Shows History (Continued)" Blue
    (replicate 26 ("1", "Show A", None)) !! 1%nat
  = Some (ListingEmbed "All Shows History (Continued)" Blue
            [("Show A (ID: 1)", zero_width_space, true)])
  ∧ listing_title (ListingEmbed "All Shows History (Continued)" Blue
                     [("Show A (ID: 1)", zero_width_space, true)])
    = "All Shows History (Continued)".
Proof.
  assert (listing_embeds "All Shows History" "All Shows History (Continued)" Blue
            (replicate 26 ("1", "Show A", None)) !! 1%nat
          = Some (ListingEmbed "All Shows History (Continued)" Blue
                    [("Show A (ID: 1)", zero_width_space, true)])) as Hpage
    by reflexivity.
  split; [exact Hpage|].
  exact (listing_pages_titles "All Shows History" "All Shows History (Continued)" Blue
           (replicate 26 ("1", "Show A", None)) 1 _ Hpage).
Defined.

Section listing_commands.
Implicit Types (fetched : list (string * string * option string)).

Lemma embed_replies_fields (pages : list listing_embed) :
  concat (reply_fields <$> ((λ e, RespondEmbed e true) <$> pages))
  = concat (fields <$> pages).
Proof. by rewrite <-list_fmap_compose. Qed.

Lemma all_shows_command_fields fetched :
  concat (reply_fields <$> all_shows_command fetched) = listing_field <$> fetched.
Proof.
  unfold all_shows_command. case_decide as Hnil; [by rewrite Hnil|].
  rewrite embed_replies_fields. apply listing_embeds_fields.
Qed.

Lemma current_shows_command_fields fetched :
  concat (reply_fields <$> current_shows_command fetched) = listing_field <$> fetched.
Proof.
  unfold current_shows_command. case_decide as Hnil; [by rewrite Hnil|].
  rewrite embed_replies_fields. apply listing_embeds_fields.
Qed.

Lemma pages_max n : n ≠ 0%nat → ((n + 24) `div` 25 = 1 `max` ((n + 24) `div` 25))%nat.
Proof.
  intros Hn.
  assert (1 ≤ (n + 24) `div` 25)%nat; [|lia].
  apply (Nat.div_le_lower_bound (n + 24) 25 1); lia.
Qed.

Lemma all_shows_command_length fetched :
  length (all_shows_command fetched)
  = (1 `max` ((length fetched + 24) `div` 25))%nat.
Proof.
  unfold all_shows_command. case_decide as Hnil; [by rewrite Hnil|].
  rewrite length_fmap.
  destruct (listing_embeds_sizes "All Shows History" "All Shows History (Continued)"
              Blue fetched) as [-> _].
  apply pages_max. by destruct fetched.
Qed.

Lemma current_shows_command_length fetched :
  length (current_shows_command fetched)
  = (1 `max` ((length fetched + 24) `div` 25))%nat.
Proof.
  unfold current_shows_command. case_decide as Hnil; [by rewrite Hnil|].
  rewrite length_fmap.
  destruct (listing_embeds_sizes "Currently Available Shows"
              "Currently Available Shows (Continued)" Green fetched) as [-> _].
  apply pages_max. by destruct fetched.
Qed.

Lemma embed_replies_ephemeral (pages : list listing_embed) :
  Forall (λ r, reply_ephemeral r = true) ((λ e, RespondEmbed e true) <$> pages).
Proof. apply Forall_fmap, Forall_forall. done. Qed.
End listing_commands.

(** X9. With the rows fetched being those of the table in some order, the
    [all_shows] command shows every row of [all_shows] and the
    [current_shows] command every row of [shows], each in exactly one field;
    the replies are ephemeral, ceil(n / 25) of them for n rows, and for an
    empty table the one text that says so. *)
Theorem listing_commands_show_tables (w : world)
    (fetched_all fetched_current : list (string * string * option string)) :
  fetched_all ≡ₚ all_shows_columns (committed w) →
  fetched_current ≡ₚ shows_columns (committed w) →
  let a := all_shows_command fetched_all in
  let c := current_shows_command fetched_current in
  concat (reply_fields <$> a) ≡ₚ listing_field <$> all_shows_columns (committed w)
  ∧ concat (reply_fields <$> c) ≡ₚ listing_field <$> shows_columns (committed w)
  ∧ length a = (1 `max` ((length (all_shows (committed w)) + 24) `div` 25))%nat
  ∧ length c = (1 `max` ((length (shows (committed w)) + 24) `div` 25))%nat
  ∧ (all_shows (committed w) = [] →
     a = [RespondText "No shows found in the database." true])
  ∧ (shows (committed w) = [] →
     c = [RespondText "No current shows available." true])
  ∧ Forall (λ r, reply_ephemeral r = true) (a ++ c).
Proof.
  intros Ha Hc. cbv zeta. split_and!.
  - by rewrite all_shows_command_fields, Ha.
  - by rewrite current_shows_command_fields, Hc.
  - rewrite all_shows_command_length, Ha. unfold all_shows_columns.
    by rewrite length_fmap.
  - rewrite current_shows_command_length, Hc. unfold shows_columns.
    by rewrite length_fmap.
  - intros Hnil. unfold all_shows_columns in Ha. rewrite Hnil in Ha.
    by apply Permutation_nil_r in Ha as ->.
  - intros Hnil. unfold shows_columns in Hc. rewrite Hnil in Hc.
    by apply Permutation_nil_r in Hc as ->.
  - apply Forall_app. split.
    + unfold all_shows_command. case_decide; [by apply Forall_singleton|].
      apply embed_replies_ephemeral.
    + unfold current_shows_command. case_decide; [by apply Forall_singleton|].
      apply embed_replies_ephemeral.
Qed.

Lemma listing_commands_show_tables_witness :
  all_shows_columns (committed example_world)
    ≡ₚ all_shows_columns (committed example_world)
  ∧ shows_columns (committed example_world)
      ≡ₚ shows_columns (committed example_world)
  ∧ all_shows_command (all_shows_columns (committed example_world))
    = [RespondEmbed (ListingEmbed "All Shows History" Blue
                       [("Show A (ID: 1)", zero_width_space, true)]) true]
  ∧ length (current_shows_command (shows_columns (committed example_world)))
    = (1 `max` ((length (shows (committed example_world)) + 24) `div` 25))%nat.
Proof.
  assert (all_shows_columns (committed example_world)
            ≡ₚ all_shows_columns (committed example_world)) as Ha by reflexivity.
  assert (shows_columns (committed example_world)
            ≡ₚ shows_columns (committed example_world)) as Hc by reflexivity.
  split_and!; [exact Ha|exact Hc|reflexivity|].
  destruct (listing_commands_show_tables example_world _ _ Ha Hc)
    as (_ & _ & _ & Hlen & _).
  exact Hlen.
Defined.

(** ** Successive runs *)

Section runs.
Implicit Types (d : gmap string show_info) (w : world) (obs : observation).

Lemma elem_of_map_to_list_keys d (id : string) :
  id ∈ (map_to_list d).*1 ↔ id ∈ dom d.
Proof.
  rewrite list_elem_of_fmap, elem_of_dom. split.
  - intros ([id' info] & -> & Hin). apply elem_of_map_to_list in Hin. eauto.
  - intros [info Hinfo]. exists (id, info). split; [done|].
    by apply elem_of_map_to_list.
Qed.

(** A failed observation leaves the committed database as it is. *)
Lemma scrape_and_process_failed obs (now : Z) w :
  observation_failed obs →
  committed (scrape_and_process obs now w).1 = committed w.
Proof. by destruct obs. Qed.

(** What a run posts depends on the committed [shows] table only. *)
Lemma scrape_and_process_posted d (now1 now2 : Z) w1 w2 :
  shows (committed w1) = shows (committed w2) →
  (scrape_and_process (Scraped d) now1 w1).2
  = (scrape_and_process (Scraped d) now2 w2).2.
Proof.
  intros Heq.
  destruct (scrape_and_process_scraped d now1 w1) as [_ ->].
  destruct (scrape_and_process_scraped d now2 w2) as [_ ->].
  by rewrite Heq.
Qed.

(** The coroutine posted by the run that follows a run which scraped [d1]. *)
Lemma second_run_posted d1 d2 (now1 now2 : Z) w :
  (scrape_and_process (Scraped d2) now2
     (scrape_and_process (Scraped d1) now1 w).1).2
  = if decide (filter (λ item, item.1 ∉ dom d1) d2 = ∅) then []
    else [NotifyUsersAboutNewShows (filter (λ item, item.1 ∉ dom d1) d2)].
Proof.
  destruct (scrape_and_process_scraped d2 now2
              (scrape_and_process (Scraped d1) now1 w).1) as [_ ->].
  destruct (scrape_and_process_scraped d1 now1 w) as [-> _]. simpl.
  assert (filter (λ item : string * show_info, item.1 ∉ (map_to_list d1).*1) d2
          = filter (λ item, item.1 ∉ dom d1) d2) as ->; [|done].
  apply map_filter_ext. intros id info _. simpl.
  by rewrite elem_of_map_to_list_keys.
Qed.

Lemma filter_own_keys d : filter (λ item, item.1 ∉ dom d) d = ∅.
Proof.
  apply map_eq. intros id. rewrite lookup_empty.
  apply map_lookup_filter_None. right. intros info Hinfo Hout. simpl in Hout.
  apply Hout, elem_of_dom. eauto.
Qed.

(** One iteration either leaves the committed database or rewrites the
    snapshot and extends the catalog. *)
Lemma scraping_task_committed (hour : Z) obs (now : Z) w :
  committed (scraping_task hour obs now w).1 = committed w
  ∨ ∃ d, committed (scraping_task hour obs now w).1
         = {| shows := map_to_list d;
              all_shows := foldl (insert_all_shows_row now)
                             (all_shows (committed w)) (map_to_list d);
              user_blacklists := user_blacklists (committed w) |}.
Proof.
  unfold scraping_task. case_decide; [|by left].
  destruct obs as [err| |d]; [by left..|]. right. exists d.
  by destruct (scrape_and_process_scraped d now w) as [-> _].
Qed.

(** After a rewrite of the snapshot every id of [shows] is in [all_shows]. *)
Lemma snapshot_in_catalog d (now : Z) (rows : list all_shows_row) (id : string) :
  id ∈ (map_to_list d).*1 →
  id ∈ row_id <$> foldl (insert_all_shows_row now) rows (map_to_list d).
Proof.
  intros ([id' info] & -> & Hin)%list_elem_of_fmap. simpl.
  destruct (decide (id' ∈ row_id <$> rows)) as [Hold|Hnew].
  - destruct (add_rows_prefix now (map_to_list d) rows) as [new ->].
    rewrite fmap_app. apply elem_of_app. by left.
  - pose proof (add_rows_fresh now _ _ _ _ Hin (NoDup_fst_map_to_list d) Hnew)
      as Hrow.
    by apply (list_elem_of_fmap_2 row_id) in Hrow.
Qed.
End runs.

(** X10. What a run announces is decided by the run before it: after a run
    that scraped [d1], a run that scrapes [d2] posts the fanout for the shows
    of [d2] whose id is not in [d1], or nothing when there is none.  So the
    same observation twice announces nothing the second time, and a failed
    observation in between changes nothing of it. *)
Theorem consecutive_runs_announce_difference
    (d1 d2 : gmap string show_info) (now1 now2 : Z) (w : world) :
  let w1 := (scrape_and_process (Scraped d1) now1 w).1 in
  (scrape_and_process (Scraped d2) now2 w1).2
  = (if decide (filter (λ item, item.1 ∉ dom d1) d2 = ∅) then []
     else [NotifyUsersAboutNewShows (filter (λ item, item.1 ∉ dom d1) d2)])
  ∧ (scrape_and_process (Scraped d1) now2 w1).2 = []
  ∧ (∀ obs now,
       observation_failed obs →
       (scrape_and_process (Scraped d2) now2 (scrape_and_process obs now w1).1).2
       = (scrape_and_process (Scraped d2) now2 w1).2).
Proof.
  cbv zeta. split_and!.
  - apply second_run_posted.
  - rewrite second_run_posted, filter_own_keys. by rewrite decide_True.
  - intros obs now Hfail. apply scrape_and_process_posted.
    by rewrite scrape_and_process_failed.
Qed.

(** X11. A show that was in the snapshot, is missing from one observation
    and is back in the next is announced again, although [all_shows] has
    held it all along; in particular, after an observation without shows
    every show of the next observation is announced. *)
Theorem returning_show_is_announced_again
    (d1 d2 d3 : gmap string show_info) (now1 now2 now3 : Z) (w : world)
    (id : string) (info : show_info) :
  id ∉ dom d2 →
  d3 !! id = Some info →
  let w2 := (scrape_and_process (Scraped d2) now2
               (scrape_and_process (Scraped d1) now1 w).1).1 in
  (∃ ns, (scrape_and_process (Scraped d3) now3 w2).2 = [NotifyUsersAboutNewShows ns]
         ∧ ns !! id = Some info
         ∧ (d2 = ∅ → ns = d3))
  ∧ (id ∈ dom d1 → id ∈ row_id <$> all_shows (committed w2)).
Proof.
  intros Hout Hin. cbv zeta. split.
  - exists (filter (λ item, item.1 ∉ dom d2) d3).
    assert (filter (λ item, item.1 ∉ dom d2) d3 !! id = Some info) as Hlook
      by (by apply map_lookup_filter_Some).
    rewrite second_run_posted. split_and!.
    + rewrite decide_False; [done|]. intros Hempty.
      by rewrite Hempty, lookup_empty in Hlook.
    + done.
    + intros ->. apply map_filter_id. intros id' info' _. simpl.
      rewrite dom_empty. set_solver.
  - intros Hd1.
    destruct (scrape_and_process_scraped d2 now2
                (scrape_and_process (Scraped d1) now1 w).1) as [-> _].
    destruct (scrape_and_process_scraped d1 now1 w) as [-> _]. simpl.
    destruct (add_rows_prefix now2 (map_to_list d2)
                (foldl (insert_all_shows_row now1) (all_shows (committed w))
                   (map_to_list d1))) as [new ->].
    rewrite fmap_app. apply elem_of_app. left.
    apply snapshot_in_catalog. by apply elem_of_map_to_list_keys.
Qed.

Lemma returning_show_is_announced_again_witness :
  ("2" ∉ dom ({["1" := example_show_a]} : gmap string show_info))
  ∧ example_scraped !! "2" = Some example_show_b
  ∧ let w2 := (scrape_and_process (Scraped {["1" := example_show_a]}) 10
                 (scrape_and_process (Scraped example_scraped) 9 example_world).1).1 in
    (∃ ns, (scrape_and_process (Scraped example_scraped) 11 w2).2
           = [NotifyUsersAboutNewShows ns]
           ∧ ns !! "2" = Some example_show_b
           ∧ (({["1" := example_show_a]} : gmap string show_info) = ∅ →
              ns = example_scraped))
    ∧ ("2" ∈ dom example_scraped → "2" ∈ row_id <$> all_shows (committed w2)).
Proof.
  assert ("2" ∉ dom ({["1" := example_show_a]} : gmap string show_info)) as Hout.
  { rewrite dom_singleton_L. by intros ?%elem_of_singleton. }
  assert (example_scraped !! "2" = Some example_show_b) as Hin by reflexivity.
  split_and!; [exact Hout|exact Hin|].
  exact (returning_show_is_announced_again example_scraped
           {["1" := example_show_a]} example_scraped 9 10 11 example_world
           "2" example_show_b Hout Hin).
Defined.

Section iterations.
Implicit Types (w : world) (ticks : list (Z * observation * Z)).

Lemma scraping_task_keeps (hour : Z) (obs : observation) (now : Z) w :
  NoDup (row_id <$> all_shows (committed w)) →
  let w' := (scraping_task hour obs now w).1 in
  NoDup (row_id <$> all_shows (committed w'))
  ∧ all_shows (committed w) `prefix_of` all_shows (committed w')
  ∧ user_blacklists (committed w') = user_blacklists (committed w)
  ∧ (NoDup (shows (committed w)).*1 → NoDup (shows (committed w')).*1)
  ∧ ((∀ id, id ∈ (shows (committed w)).*1 → id ∈ row_id <$> all_shows (committed w)) →
     ∀ id, id ∈ (shows (committed w')).*1 → id ∈ row_id <$> all_shows (committed w')).
Proof.
  intros Hnd. cbv zeta.
  destruct (scraping_task_committed hour obs now w) as [->|[d ->]]; [done|].
  simpl. split_and!.
  - by apply add_rows_NoDup.
  - apply add_rows_prefix.
  - done.
  - intros _. apply NoDup_fst_map_to_list.
  - intros _ id. apply snapshot_in_catalog.
Qed.

Lemma scraping_iterations_keep ticks w :
  NoDup (row_id <$> all_shows (committed w)) →
  let w' := scraping_iterations ticks w in
  NoDup (row_id <$> all_shows (committed w'))
  ∧ all_shows (committed w) `prefix_of` all_shows (committed w')
  ∧ user_blacklists (committed w') = user_blacklists (committed w)
  ∧ (NoDup (shows (committed w)).*1 → NoDup (shows (committed w')).*1)
  ∧ ((∀ id, id ∈ (shows (committed w)).*1 → id ∈ row_id <$> all_shows (committed w)) →
     ∀ id, id ∈ (shows (committed w')).*1 → id ∈ row_id <$> all_shows (committed w')).
Proof.
  revert w. induction ticks as [|[[hour obs] now] ticks IH]; intros w Hnd.
  { by cbv zeta. }
  destruct (scraping_task_keeps hour obs now w Hnd) as (Hnd1 & Hpre1 & Hbl1 & Hs1 & Hc1).
  destruct (IH _ Hnd1) as (Hnd2 & Hpre2 & Hbl2 & Hs2 & Hc2).
  cbv zeta. unfold scraping_iterations in *. simpl in *. split_and!.
  - done.
  - by etrans.
  - by rewrite Hbl2.
  - intros ?. by apply Hs2, Hs1.
  - intros ?. by apply Hc2, Hc1.
Qed.

(** Iterations out of hours and iterations whose observation fails leave the
    committed database as it is. *)
Lemma scraping_iterations_idle ticks w :
  (∀ tick, tick ∈ ticks →
     ¬ (8 ≤ tick.1.1 < 17)%Z ∨ observation_failed tick.1.2) →
  committed (scraping_iterations ticks w) = committed w.
Proof.
  revert w. induction ticks as [|[[hour obs] now] ticks IH]; intros w Hidle; [done|].
  unfold scraping_iterations in *. simpl.
  rewrite IH by (intros tick Htick; apply Hidle; by right).
  unfold scraping_task. case_decide as Hhour; [|done].
  destruct (Hidle (hour, obs, now)) as [?|Hfail]; [left|done|].
  by apply scrape_and_process_failed.
Qed.

Lemma scraping_iterations_app ticks1 ticks2 w :
  scraping_iterations (ticks1 ++ ticks2) w
  = scraping_iterations ticks2 (scraping_iterations ticks1 w).
Proof. apply foldl_app. Qed.
End iterations.

(** X12. Over any sequence of iterations of the scraping task, in or out of
    hours and with any observations, the ids in [all_shows] stay distinct
    and its rows stay where they are, so the catalog only grows; the table
    of blacklists is never touched; ids in [shows] stay distinct; and if
    every show of the snapshot is in the catalog, that stays so. *)
Theorem scraping_iterations_keep_store
    (ticks : list (Z * observation * Z)) (w : world) :
  NoDup (row_id <$> all_shows (committed w)) →
  let w' := scraping_iterations ticks w in
  NoDup (row_id <$> all_shows (committed w'))
  ∧ all_shows (committed w) `prefix_of` all_shows (committed w')
  ∧ user_blacklists (committed w') = user_blacklists (committed w)
  ∧ (NoDup (shows (committed w)).*1 → NoDup (shows (committed w')).*1)
  ∧ ((∀ id, id ∈ (shows (committed w)).*1 → id ∈ row_id <$> all_shows (committed w)) →
     ∀ id, id ∈ (shows (committed w')).*1 → id ∈ row_id <$> all_shows (committed w')).
Proof. apply scraping_iterations_keep. Qed.

Lemma scraping_iterations_keep_store_witness :
  NoDup (row_id <$> all_shows (committed example_world))
  ∧ let w' := scraping_iterations
                [(9%Z, Scraped example_scraped, 9%Z); (18%Z, Scraped ∅, 10%Z);
                 (10%Z, NoEventInfo, 11%Z)] example_world in
    NoDup (row_id <$> all_shows (committed w'))
    ∧ all_shows (committed example_world) `prefix_of` all_shows (committed w')
    ∧ user_blacklists (committed w') = user_blacklists (committed example_world)
    ∧ (NoDup (shows (committed example_world)).*1 → NoDup (shows (committed w')).*1)
    ∧ ((∀ id, id ∈ (shows (committed example_world)).*1 →
              id ∈ row_id <$> all_shows (committed example_world)) →
       ∀ id, id ∈ (shows (committed w')).*1 → id ∈ row_id <$> all_shows (committed w')).
Proof.
  assert (NoDup (row_id <$> all_shows (committed example_world))) as Hnd.
  { simpl. apply NoDup_singleton. }
  split; [exact Hnd|].
  exact (scraping_iterations_keep_store _ example_world Hnd).
Defined.

(** X13. A show that the catalog does not hold gets, in the run that first
    scrapes it, a row with the name, url and image of that observation and
    the time of that run as first-seen date; whatever iterations follow, that
    row stays the only row of the show. *)
Theorem first_seen_date_is_first_run
    (d : gmap string show_info) (now : Z) (w : world)
    (id : string) (info : show_info) (ticks : list (Z * observation * Z)) :
  NoDup (row_id <$> all_shows (committed w)) →
  id ∉ row_id <$> all_shows (committed w) →
  d !! id = Some info →
  let w1 := (scrape_and_process (Scraped d) now w).1 in
  filter (λ row, row_id row = id) (all_shows (committed (scraping_iterations ticks w1)))
  = [AllShowsRow id info now].
Proof.
  intros Hnd Hnew Hin. cbv zeta.
  assert (AllShowsRow id info now
            ∈ all_shows (committed (scrape_and_process (Scraped d) now w).1)
          ∧ NoDup (row_id <$> all_shows
                     (committed (scrape_and_process (Scraped d) now w).1)))
    as [Hrow Hnd1].
  { destruct (scrape_and_process_scraped d now w) as [-> _]. simpl. split.
    - apply add_rows_fresh; [|apply NoDup_fst_map_to_list|done].
      by apply elem_of_map_to_list.
    - by apply add_rows_NoDup. }
  destruct (scraping_iterations_keep ticks _ Hnd1) as (Hnd2 & Hpre & _).
  apply (filter_key_NoDup row_id _ (AllShowsRow id info now)); [done|].
  by eapply elem_of_prefix.
Qed.

Lemma first_seen_date_is_first_run_witness :
  NoDup (row_id <$> all_shows (committed example_world))
  ∧ ("2" ∉ row_id <$> all_shows (committed example_world))
  ∧ example_scraped !! "2" = Some example_show_b
  ∧ filter (λ row, row_id row = "2")
      (all_shows (committed
         (scraping_iterations [(9%Z, Scraped example_scraped, 20%Z)]
            (scrape_and_process (Scraped example_scraped) 9 example_world).1)))
    = [AllShowsRow "2" example_show_b 9].
Proof.
  assert (NoDup (row_id <$> all_shows (committed example_world))) as Hnd.
  { simpl. apply NoDup_singleton. }
  assert ("2" ∉ row_id <$> all_shows (committed example_world)) as Hnew.
  { simpl. by intros ?%list_elem_of_singleton. }
  assert (example_scraped !! "2" = Some example_show_b) as Hin by reflexivity.
  split_and!; [exact Hnd|exact Hnew|exact Hin|].
  exact (first_seen_date_is_first_run example_scraped 9 example_world "2"
           example_show_b [(9%Z, Scraped example_scraped, 20%Z)] Hnd Hnew Hin).
Defined.

(** X14. The snapshot that is read is the dictionary of the last observation
    that succeeded in hours: after such an iteration, and after any further
    iterations that are out of hours (before 8 or from 17 on) or whose
    observation fails, [get_existing_shows] returns what that observation
    scraped. *)
Theorem snapshot_is_last_successful_observation
    (before idle : list (Z * observation * Z)) (hour now : Z)
    (d : gmap string show_info) (w : world) :
  (8 ≤ hour < 17)%Z →
  (∀ tick, tick ∈ idle →
     ¬ (8 ≤ tick.1.1 < 17)%Z ∨ observation_failed tick.1.2) →
  get_existing_shows
    (scraping_iterations (before ++ [(hour, Scraped d, now)] ++ idle) w) = d.
Proof.
  intros Hhour Hidle. unfold get_existing_shows.
  rewrite !scraping_iterations_app, (scraping_iterations_idle idle _ Hidle).
  unfold scraping_iterations at 1. simpl.
  unfold scraping_task. rewrite decide_True by done.
  destruct (scrape_and_process_scraped d now (scraping_iterations before w))
    as [-> _].
  simpl. apply dict_of_rows_map_to_list.
Qed.

Lemma snapshot_is_last_successful_observation_witness :
  (8 ≤ 9 < 17)%Z
  ∧ (∀ tick, tick ∈ [(17%Z, Scraped ∅, 10%Z); (10%Z, Raised "timeout", 11%Z)] →
       ¬ (8 ≤ tick.1.1 < 17)%Z ∨ observation_failed tick.1.2)
  ∧ get_existing_shows
      (scraping_iterations
         ([(7%Z, NoEventInfo, 8%Z)] ++ [(9%Z, Scraped example_scraped, 9%Z)]
            ++ [(17%Z, Scraped ∅, 10%Z); (10%Z, Raised "timeout", 11%Z)])
         example_world)
    = example_scraped.
Proof.
  assert (8 ≤ 9 < 17)%Z as Hhour by lia.
  assert (∀ tick : Z * observation * Z,
            tick ∈ [(17%Z, Scraped ∅, 10%Z); (10%Z, Raised "timeout", 11%Z)] →
            ¬ (8 ≤ tick.1.1 < 17)%Z ∨ observation_failed tick.1.2) as Hidle.
  { intros tick [->|[->|Hin]%elem_of_cons]%elem_of_cons.
    - left. simpl. lia.
    - right. exact I.
    - by apply elem_of_nil in Hin. }
  split; [exact Hhour|]. split; [exact Hidle|].
  exact (snapshot_is_last_successful_observation [(7%Z, NoEventInfo, 8%Z)] _ 9 9
           example_scraped example_world Hhour Hidle).
Defined.

(** ** Blacklisting and the fanouts that follow *)

Section suppression.
Implicit Types (ns : gmap string show_info) (guilds : list (list member)) (w : world).

(** The direct messages of a fanout that reads the blacklists. *)
Lemma elem_of_notify_returns guilds ns w (u : Z) (e : embed)
    (v : option BlacklistButton) :
  UserSend u e v ∈ (notify_users_about_new_shows QueryReturns guilds ns w).1
  ↔ u ∈ users_to_notify guilds
    ∧ ∃ id info, ns !! id = Some info
        ∧ ((u, id) ∉ user_blacklists (committed w))
        ∧ e = dm_embed id info
        ∧ v = Some (Button id (name info) u false).
Proof.
  destruct (decide (ns = ∅)) as [->|Hne].
  { rewrite notify_empty. simpl. split; [by intros ?%elem_of_nil|].
    intros (_ & id & info & Hns & _). by rewrite lookup_empty in Hns. }
  rewrite elem_of_notify_connected by done. split.
  - intros (u' & id & info & Hu & Hns & Hbl & Heq).
    injection Heq as -> -> ->. split; [done|]. exists id, info.
    by rewrite <-(fetched_blacklists_returns ns w u' id info Hns).
  - intros (Hu & id & info & Hns & Hbl & -> & ->). exists u, id, info.
    by rewrite (fetched_blacklists_returns ns w u id info Hns).
Qed.
End suppression.

Section operations.
Implicit Types (w : world) (op : store_operation) (pair : Z * string).

(** Only the [blacklist_remove] of a user for a show takes the row of that
    user and show out of [user_blacklists]. *)
Lemma apply_operation_keeps_row w op pair :
  op ≠ BlacklistRemove pair.1 pair.2 →
  pair ∈ user_blacklists (committed w) →
  pair ∈ user_blacklists (committed (apply_operation w op)).
Proof.
  intros Hop Hin. destruct op as [hour obs now|author id|author id|self user]; simpl.
  - by destruct (scraping_task_committed hour obs now w) as [->|[d ->]].
  - unfold blacklist_add. destruct (select_all_shows_name _ _); [|done]. simpl.
    apply elem_of_insert_user_blacklist. by right.
  - unfold blacklist_remove. destruct (select_name _ _); [|done]. simpl.
    rewrite delete_user_blacklist_filter. apply list_elem_of_filter.
    split; [|done]. intros ->. by apply Hop.
  - unfold callback. case_decide; [done|]. simpl.
    apply elem_of_insert_user_blacklist. by right.
Qed.

Lemma apply_operations_keep_row (ops : list store_operation) w pair :
  (∀ op, op ∈ ops → op ≠ BlacklistRemove pair.1 pair.2) →
  pair ∈ user_blacklists (committed w) →
  pair ∈ user_blacklists (committed (apply_operations ops w)).
Proof.
  revert w. induction ops as [|op ops IH]; intros w Hops Hin; [done|].
  unfold apply_operations in *. simpl. apply IH.
  - intros op' Hop'. apply Hops. by right.
  - apply apply_operation_keeps_row; [|done]. apply Hops. left.
Qed.
End operations.

(** X15. Once the user a button was made for has pressed it, and as long as
    that user does not call [blacklist_remove] for the show of the button, no
    fanout that reads the blacklists sends that user a direct message about
    that show, whatever is new then and whatever iterations of the scraping
    task, commands and button presses have come in between.  Right after the
    press, the direct messages to other users, and those to the same user
    about other shows, are what they would have been without it.
    [blacklist_add] of a show of the catalog leaves the same database as the
    button. *)
Theorem blacklisting_silences_later_fanouts
    (self : BlacklistButton) (w : world)
    (guilds : list (list member)) (ns : gmap string show_info) :
  let u := user_id self in
  let w' := (callback self u w).1.2 in
  let sent := (notify_users_about_new_shows QueryReturns guilds ns w).1 in
  let sent' := (notify_users_about_new_shows QueryReturns guilds ns w').1 in
  (∀ ops,
     (∀ op, op ∈ ops → op ≠ BlacklistRemove u (show_id self)) →
     ∀ e b,
       UserSend u e (Some b)
         ∈ (notify_users_about_new_shows QueryReturns guilds ns
              (apply_operations ops w')).1 →
       show_id b ≠ show_id self)
  ∧ (∀ e b, UserSend u e (Some b) ∈ sent' → show_id b ≠ show_id self)
  ∧ (∀ u' e b,
       u' ≠ u ∨ show_id b ≠ show_id self →
       UserSend u' e (Some b) ∈ sent' ↔ UserSend u' e (Some b) ∈ sent)
  ∧ (show_id self ∈ row_id <$> all_shows (committed w) →
     committed (blacklist_add u (show_id self) w).1 = committed w').
Proof.
  cbv zeta.
  assert (user_blacklists (committed (callback self (user_id self) w).1.2)
          = insert_user_blacklist (user_id self, show_id self)
              (user_blacklists (committed w))) as Hbl.
  { unfold callback. by rewrite decide_False by (by intros ?). }
  assert (∀ ops,
     (∀ op, op ∈ ops → op ≠ BlacklistRemove (user_id self) (show_id self)) →
     ∀ e b,
       UserSend (user_id self) e (Some b)
         ∈ (notify_users_about_new_shows QueryReturns guilds ns
              (apply_operations ops (callback self (user_id self) w).1.2)).1 →
       show_id b ≠ show_id self) as Hlater.
  { intros ops Hops e b (_ & id & info & _ & Hout & _ & Hb)%elem_of_notify_returns Heq.
    injection Hb as ->. simpl in Heq. subst id. apply Hout.
    apply (apply_operations_keep_row ops _ (user_id self, show_id self)); [done|].
    rewrite Hbl. apply elem_of_insert_user_blacklist. by left. }
  split_and!.
  - exact Hlater.
  - apply (Hlater []). by intros op ?%elem_of_nil.
  - intros u' e b Hother. rewrite !elem_of_notify_returns.
    split; intros (Hu & id & info & Hns & Hout & He & Hb);
      (split; [done|]); exists id, info; split_and!; try done;
      injection Hb as ->; simpl in Hother;
      intros Hin; apply Hout.
    + rewrite Hbl. apply elem_of_insert_user_blacklist. by right.
    + rewrite Hbl in Hin. apply elem_of_insert_user_blacklist in Hin as [Heq|?];
        [|done]. injection Heq as -> ->. by destruct Hother.
  - intros Hcat.
    destruct (blacklist_add_found (user_id self) (show_id self) w Hcat)
      as (row & _ & _ & ->).
    unfold callback. by rewrite decide_False by (by intros ?).
Qed.

(** After the press of user 8 on the button for show 2, a run that scrapes
    the shows, a press and a command of user 7 and a removal of another show
    by user 8, a fanout for show 2 sends user 8 nothing. *)
Example blacklisting_silences_later_fanouts_example :
  (notify_users_about_new_shows QueryReturns example_guilds example_new_shows
     (apply_operations
        [Iteration 9 (Scraped example_scraped) 9;
         ButtonPress (Button "1" "Show A" 7 false) 7;
         BlacklistRemove 7 "2"; BlacklistRemove 8 "1"]
        (callback (Button "2" "Show B" 8 false) 8 example_world).1.2)).1
  = [ChannelSend None [channel_embed "2" example_show_b];
     UserSend 7 (dm_embed "2" example_show_b) (Some (Button "2" "Show B" 7 false))].
Proof. by vm_compute. Qed.

(** X16. After [blacklist_remove] of a show that is in the snapshot, a
    fanout that reads the blacklists and has the show among the new ones
    sends the caller, if to be notified, the direct message about it again. *)
Theorem blacklist_remove_restores_delivery
    (author : Z) (id : string) (info : show_info) (w : world)
    (guilds : list (list member)) (ns : gmap string show_info) :
  id ∈ (shows (committed w)).*1 →
  author ∈ users_to_notify guilds →
  ns !! id = Some info →
  UserSend author (dm_embed id info) (Some (Button id (name info) author false))
    ∈ (notify_users_about_new_shows QueryReturns guilds ns
         (blacklist_remove author id w).1).1.
Proof.
  intros Hsnap Hu Hns. apply elem_of_notify_returns. split; [done|].
  exists id, info. split_and!; try done.
  destruct (blacklist_remove_found author id w Hsnap) as (info' & _ & ->).
  simpl. rewrite list_elem_of_filter. naive_solver.
Qed.

Lemma blacklist_remove_restores_delivery_witness :
  "1" ∈ (shows (committed example_world)).*1
  ∧ 8%Z ∈ users_to_notify example_guilds
  ∧ example_scraped !! "1" = Some example_show_a
  ∧ UserSend 8 (dm_embed "1" example_show_a) (Some (Button "1" "Show A" 8 false))
      ∈ (notify_users_about_new_shows QueryReturns example_guilds example_scraped
           (blacklist_remove 8 "1" (blacklist_add 8 "1" example_world).1).1).1.
Proof.
  assert ("1" ∈ (shows (committed (blacklist_add 8 "1" example_world).1)).*1) as Hsnap.
  { simpl. left. }
  assert (8%Z ∈ users_to_notify example_guilds) as Hu.
  { apply elem_of_users_to_notify.
    exists [Member 8 false], (Member 8 false). split_and!; [|left|done..].
    right. left. }
  assert (example_scraped !! "1" = Some example_show_a) as Hns by reflexivity.
  split_and!; [simpl; left|exact Hu|exact Hns|].
  exact (blacklist_remove_restores_delivery 8 "1" example_show_a
           (blacklist_add 8 "1" example_world).1 example_guilds example_scraped
           Hsnap Hu Hns).
Defined.

(** ** The panels of the page *)

Section strings.
Implicit Types (s p r : string) (sep c : ascii).

Lemma prefix_true_inv p s : String.prefix p s = true → ∃ r, s = p +:+ r.
Proof.
  revert s. induction p as [|c p IH]; intros s Hpre.
  - by exists s.
  - destruct s as [|c' s]; [done|]. simpl in Hpre.
    destruct (Ascii.ascii_dec c c') as [->|]; [|done].
    destruct (IH s Hpre) as [r ->]. by exists r.
Qed.

Lemma attr_startswith_inv p (attr : option string) :
  attr_startswith p attr = true → ∃ r, attr = Some (p +:+ r).
Proof.
  destruct attr as [s|]; [|done]. simpl. case_decide; [done|].
  intros [r ->]%prefix_true_inv. by exists r.
Qed.

Lemma split_not_nil sep s : split sep s ≠ [].
Proof.
  destruct s as [|c s]; [done|]. simpl. case_decide; [done|].
  by destruct (split sep s).
Qed.

(** No piece of a split holds the separator. *)
Lemma split_pieces sep s :
  Forall (λ piece, sep ∉ String.list_ascii_of_string piece) (split sep s).
Proof.
  induction s as [|c s IH]; simpl.
  - apply Forall_singleton. by intros ?%elem_of_nil.
  - case_decide as Hc.
    + apply Forall_cons. split; [by intros ?%elem_of_nil|done].
    + destruct (split sep s) as [|piece pieces].
      * apply Forall_singleton. simpl.
        intros [Heq|?%elem_of_nil]%elem_of_cons; [|done]. by subst.
      * apply Forall_cons in IH as [Hpiece Hpieces].
        apply Forall_cons. split; [|done]. simpl.
        intros [Heq|?]%elem_of_cons; [by subst|done].
Qed.

Lemma split_no_separator sep s :
  sep ∉ String.list_ascii_of_string s → split sep s = [s].
Proof.
  induction s as [|c s IH]; intros Hout; [done|]. simpl in *.
  rewrite decide_False by (intros ->; apply Hout; left).
  rewrite IH; [done|]. intros Hin. apply Hout. by right.
Qed.

(** The last piece of a split is what follows the last separator. *)
Lemma split_last sep s r :
  sep ∉ String.list_ascii_of_string r →
  List.last (split sep (s +:+ String sep r)) "" = r.
Proof.
  intros Hout.
  assert (∃ x pieces, split sep (s +:+ String sep r) = (x :: pieces) ++ [r])
    as (x & pieces & ->); [|apply List.last_last].
  induction s as [|c s (x & pieces & IH)]; simpl.
  - rewrite decide_True by done. rewrite split_no_separator by done.
    by exists "", [].
  - case_decide.
    + rewrite IH. by exists "", (x :: pieces).
    + rewrite IH. by exists (String c x), pieces.
Qed.

Lemma last_elem_of {A} (l : list A) (d : A) : l ≠ [] → List.last l d ∈ l.
Proof.
  induction l as [|x [|y l] IH]; intros Hne; [done|left|].
  right. by apply IH.
Qed.
End strings.

Section panels.
Implicit Types (acc : gmap string show_info) (p : panel).

Lemma find_link_Some (anchors : list anchor) (link : anchor) :
  find_link anchors = Some link →
  ∃ r, href link = Some ("./tickets/view/" +:+ r).
Proof.
  intros Hin%head_Some_elem_of. apply list_elem_of_filter in Hin as [Hpre _].
  by apply attr_startswith_inv in Hpre.
Qed.

Lemma find_image_Some (srcs : list (option string)) (src : string) :
  find_image srcs = Some src → ∃ r, src = "/resources/media/" +:+ r.
Proof.
  unfold find_image. destruct (head _) as [[src'|]|] eqn:Hhead; [|done..].
  simpl. intros [= ->]. apply head_Some_elem_of in Hhead.
  apply list_elem_of_filter in Hhead as [Hpre _].
  apply attr_startswith_inv in Hpre as [r [= ->]]. by exists r.
Qed.

Lemma scrape_panel_ok acc p :
  map_Forall scraped_entry_ok acc → map_Forall scraped_entry_ok (scrape_panel acc p).
Proof.
  intros Hacc. unfold scrape_panel.
  destruct (heading p) as [anchors|]; [|done].
  destruct (find_link anchors) as [link|] eqn:Hlink; [|done].
  case_decide as Hname; [done|].
  apply map_Forall_insert_2; [|done].
  destruct (find_link_Some _ _ Hlink) as [r ->]. simpl.
  unfold scraped_entry_ok. simpl. split_and!.
  - naive_solver.
  - naive_solver.
  - by exists r.
  - pose proof (split_pieces "="%char ("./tickets/view/" +:+ r)) as Hpieces.
    apply (proj1 (Forall_forall _ _) Hpieces), last_elem_of, split_not_nil.
  - intros img. destruct (find_image (images p)) as [src|] eqn:Himg; [|done].
    intros [= <-]. destruct (find_image_Some _ _ Himg) as [r' ->]. by exists r'.
Qed.

Lemma scrape_panel_skipped acc p : panel_skipped p → scrape_panel acc p = acc.
Proof.
  unfold panel_skipped, scrape_panel.
  destruct (heading p) as [anchors|]; [|done].
  destruct (find_link anchors) as [link|]; [|done].
  intros Hname. by rewrite decide_True.
Qed.
End panels.

(** X17. Every entry that the loop over the panels stores has a name that is
    neither empty nor [[...]], a url that extends the address of the ticket
    pages, an id without [=], and an image url that, when present, extends
    the address of the media. *)
Theorem scraped_entries_are_well_formed
    (panels : list panel) (id : string) (info : show_info) :
  scrape_panels panels !! id = Some info →
  name info ≠ "" ∧ name info ≠ "[...]"
  ∧ (∃ rest, url info = "https://lv.houseseats.com/member/tickets/view/" +:+ rest)
  ∧ ("="%char ∉ String.list_ascii_of_string id)
  ∧ (∀ img, image_url info = Some img →
        ∃ rest, img = "https://lv.houseseats.com/resources/media/" +:+ rest).
Proof.
  assert (∀ acc, map_Forall scraped_entry_ok acc →
                 map_Forall scraped_entry_ok (foldl scrape_panel acc panels)) as Hall.
  { induction panels as [|p panels IH]; intros acc Hacc; [done|].
    simpl. by apply IH, scrape_panel_ok. }
  intros Hin. exact (Hall ∅ (map_Forall_empty _) id info Hin).
Qed.

Lemma scraped_entries_are_well_formed_witness :
  scrape_panels [example_panel] !! "123"
  = Some (ShowInfo "Show X" "https://lv.houseseats.com/member/tickets/view/?showid=123"
            (Some "https://lv.houseseats.com/resources/media/x.jpg"))
  ∧ ("="%char ∉ String.list_ascii_of_string "123")
  ∧ ∃ rest, "https://lv.houseseats.com/member/tickets/view/?showid=123"
            = "https://lv.houseseats.com/member/tickets/view/" +:+ rest.
Proof.
  assert (scrape_panels [example_panel] !! "123"
          = Some (ShowInfo "Show X"
                    "https://lv.houseseats.com/member/tickets/view/?showid=123"
                    (Some "https://lv.houseseats.com/resources/media/x.jpg"))) as Hin.
  { by vm_compute. }
  split; [exact Hin|].
  destruct (scraped_entries_are_well_formed [example_panel] "123" _ Hin)
    as (_ & _ & Hurl & Hid & _).
  split; [exact Hid|exact Hurl].
Defined.

(** X18. The id of a show is what follows the last [=] of the link: a panel
    whose ticket link is [./tickets/view/...=n], with no [=] in [n] and a
    text that is neither empty nor [[...]], stores under the key [n] the
    text, the link made absolute and the image, over any entry there was. *)
Theorem scrape_panel_stores_show_id
    (acc : gmap string show_info) (anchors : list anchor)
    (srcs : list (option string)) (query n text : string) :
  find_link anchors
  = Some (Anchor (Some ("./tickets/view/" +:+ query +:+ String "="%char n)) text) →
  "="%char ∉ String.list_ascii_of_string n →
  text ≠ "" → text ≠ "[...]" →
  scrape_panel acc (Panel (Some anchors) srcs)
  = <[n := ShowInfo text
             ("https://lv.houseseats.com/member/tickets/view/" +:+ query
                +:+ String "="%char n)
             ((λ src, "https://lv.houseseats.com" +:+ src) <$> find_image srcs)]> acc.
Proof.
  intros Hlink Hn Htext1 Htext2. unfold scrape_panel.
  cbn [heading images]. rewrite Hlink. cbn [href stripped_text default].
  rewrite decide_False by naive_solver.
  assert ("./tickets/view/" +:+ query +:+ String "="%char n
          = ("./tickets/view/" +:+ query) +:+ String "="%char n) as Hshape
    by reflexivity.
  unfold id. rewrite Hshape at 1. rewrite split_last by done.
  by destruct (find_image srcs).
Qed.

Lemma scrape_panel_stores_show_id_witness :
  find_link [Anchor None "More"; Anchor (Some "./tickets/view/?showid=123") "Show X"]
  = Some (Anchor (Some ("./tickets/view/" +:+ "?showid" +:+ String "="%char "123"))
            "Show X")
  ∧ ("="%char ∉ String.list_ascii_of_string "123")
  ∧ "Show X" ≠ "" ∧ "Show X" ≠ "[...]"
  ∧ scrape_panel ∅ example_panel
    = <["123" := ShowInfo "Show X"
                   ("https://lv.houseseats.com/member/tickets/view/" +:+ "?showid"
                      +:+ String "="%char "123")
                   ((λ src, "https://lv.houseseats.com" +:+ src)
                      <$> find_image [None; Some "/img/logo.png";
                                      Some "/resources/media/x.jpg"])]> ∅.
Proof.
  assert (find_link [Anchor None "More";
                     Anchor (Some "./tickets/view/?showid=123") "Show X"]
          = Some (Anchor (Some ("./tickets/view/" +:+ "?showid"
                                  +:+ String "="%char "123")) "Show X")) as Hlink.
  { by vm_compute. }
  assert ("="%char ∉ String.list_ascii_of_string "123") as Hn.
  { simpl. intros Hin. by repeat (apply elem_of_cons in Hin as [?|Hin]; [done|]);
      apply elem_of_nil in Hin. }
  assert ("Show X" ≠ "") as H1 by done.
  assert ("Show X" ≠ "[...]") as H2 by done.
  split_and!; [exact Hlink|exact Hn|exact H1|exact H2|].
  exact (scrape_panel_stores_show_id ∅ _ _ "?showid" "123" "Show X" Hlink Hn H1 H2).
Defined.

(** X19. A page that has the [event-info] div but no panel the loop can use
    is an observation of no shows: the run empties the snapshot, leaves the
    catalog and posts nothing, not even a warning; whereas a page without the
    div keeps the snapshot and posts the warning. *)
Theorem page_without_usable_panels (panels : list panel) (now : Z) (w : world) :
  Forall panel_skipped panels →
  observe_page (Some panels) = Scraped ∅
  ∧ (let r := scrape_and_process (observe_page (Some panels)) now w in
     shows (committed r.1) = []
     ∧ all_shows (committed r.1) = all_shows (committed w)
     ∧ user_blacklists (committed r.1) = user_blacklists (committed w)
     ∧ r.2 = [])
  ∧ (let r := scrape_and_process (observe_page None) now w in
     committed r.1 = committed w
     ∧ r.2 = [SendDiscordMessage warning_message]).
Proof.
  intros Hskip.
  assert (∀ acc, foldl scrape_panel acc panels = acc) as Hfold.
  { induction Hskip as [|p panels Hp _ IH]; intros acc; [done|].
    simpl. by rewrite scrape_panel_skipped, IH. }
  assert (scrape_panels panels = ∅) as Hempty by apply Hfold.
  split_and!.
  - simpl. by rewrite Hempty.
  - cbv zeta. unfold observe_page. rewrite Hempty.
    destruct (scrape_and_process_scraped ∅ now w) as [-> ->]. simpl.
    rewrite map_to_list_empty. simpl.
    rewrite map_filter_empty. by rewrite decide_True.
  - done.
Qed.

Lemma page_without_usable_panels_witness :
  Forall panel_skipped
    [Panel None [Some "/resources/media/x.jpg"];
     Panel (Some [Anchor (Some "/help") "Help"]) [];
     Panel (Some [Anchor (Some "./tickets/view/?showid=7") "[...]"]) []]
  ∧ (let r := scrape_and_process
                (observe_page
                   (Some [Panel None [Some "/resources/media/x.jpg"];
                          Panel (Some [Anchor (Some "/help") "Help"]) [];
                          Panel (Some [Anchor (Some "./tickets/view/?showid=7") "[...]"])
                            []])) 9 example_world in
     shows (committed r.1) = []
     ∧ all_shows (committed r.1) = all_shows (committed example_world)
     ∧ user_blacklists (committed r.1) = user_blacklists (committed example_world)
     ∧ r.2 = []).
Proof.
  assert (Forall panel_skipped
            [Panel None [Some "/resources/media/x.jpg"];
             Panel (Some [Anchor (Some "/help") "Help"]) [];
             Panel (Some [Anchor (Some "./tickets/view/?showid=7") "[...]"]) []])
    as Hskip.
  { repeat apply Forall_cons_2; [exact I|exact I|by right|apply Forall_nil_2]. }
  split; [exact Hskip|].
  destruct (page_without_usable_panels _ 9 example_world Hskip) as (_ & Hrun & _).
  exact Hrun.
Defined.

(** ** A fanout that fails *)


